(** * Referential-integrity checker of [osmium check-refs]

    A shallow embedding of [src/command_check_refs.cpp]: the [bitsvec]
    wrapper around [std::vector<bool>], the [RefCheckHandler] callbacks
    ([node], [way], [relation]), the deferred relation reconciliation
    ([missing_relations_in_relations]), [any_errors] and
    [CommandCheckRefs::run].

    Conventions.
    - [osmium::object_id_type] is [int64_t] and
      [osmium::unsigned_object_id_type] is [uint64_t]; both are carried by
      [Z], with the conversions to [uint64_t] and [uint32_t] written out as
      [mod].  Statements about object IDs assume the [int64_t] range
      ([object_id]).
    - [std::vector<bool>] is carried by its size and its indexed read;
      [std::vector<uint32_t>] by a list in storage order; [std::set<uint32_t>]
      by the list of its elements in iteration (ascending) order.
    - Lines written to [std::cout] under [m_show_ids] are kept as a trace in
      the handler state.  The progress text sent to [m_vout] and the summary
      sent to [std::cerr] are never read back and are left out. *)

From Stdlib Require Import ZArith List Bool Lia Sorted Permutation.
Import ListNotations.
Local Open Scope Z_scope.

(** ** Machine integers *)

Definition uint64_t (z : Z) : Z := z mod 2 ^ 64.
Definition uint32_t (z : Z) : Z := z mod 2 ^ 32.

(** [++c] on a [uint64_t] counter. *)
Definition incr (c : Z) : Z := uint64_t (c + 1).

(** The range of [osmium::object_id_type]. *)
Definition object_id (id : Z) : Prop := - 2 ^ 63 <= id < 2 ^ 63.

(** [std::abs] on [int64_t].  At [INT64_MIN] the C++ call overflows; the
    two's complement result converts to [2^63] as a [uint64_t], which is what
    [Z.abs] followed by [uint64_t] gives as well. *)
Definition std_abs (id : Z) : Z := Z.abs id.

(** ** [std::vector<bool>] *)

Module vector_bool.

Record t : Type := mk { size : Z; nth : Z -> bool }.

Definition empty : t := mk 0 (fun _ => false).

(** [v.resize(n)]: indices below the old size keep their value, new
    indices are value-initialised to [false]. *)
Definition resize (v : t) (n : Z) : t :=
  mk n (fun i => if i <? size v then nth v i else false).

(** [v[i] = b]. *)
Definition assign (v : t) (i : Z) (b : bool) : t :=
  mk (size v) (fun j => if j =? i then b else nth v j).

End vector_bool.

(** ** [class bitsvec] *)

Module bitsvec.

Record t : Type := mk { m_bits : vector_bool.t }.

Definition empty : t := mk vector_bool.empty.

Definition set (b : t) (id : Z) : t :=
  let pid := uint64_t (std_abs id) in
  let bits :=
    if vector_bool.size (m_bits b) <=? pid
    then vector_bool.resize (m_bits b) (uint64_t (pid + 1024 * 1024))
    else m_bits b in
  mk (vector_bool.assign bits pid true).

Definition get (b : t) (id : Z) : bool :=
  let pid := uint64_t (std_abs id) in
  (pid <? vector_bool.size (m_bits b)) && vector_bool.nth (m_bits b) pid.

(** [m_bits.size()], the capacity of the backing storage. *)
Definition capacity (b : t) : Z := vector_bool.size (m_bits b).

End bitsvec.

(** ** Entities delivered by [osmium::apply] *)

Inductive item_type : Type :=
| undefined | node | way | relation | area | changeset.

Record RelationMember : Type :=
  { member_type : item_type; member_ref : Z }.

Inductive entity : Type :=
| Node (id : Z)
| Way (id : Z) (nodes : list Z)
| Relation (id : Z) (members : list RelationMember).

(** ** Lines written to [std::cout] *)

Inductive cout_line : Type :=
| n_in_w (ref id : Z)       (* "n<ref> in w<id>" *)
| n_in_r (ref id : Z)       (* "n<ref> in r<id>" *)
| w_in_r (ref id : Z)       (* "w<ref> in r<id>" *)
| r_in_r (id : Z).          (* "r<id> in r" *)

(** ** [std::sort], [std::set<uint32_t>::insert], [std::set_difference] *)

Fixpoint sorted_insert (x : Z) (l : list Z) : list Z :=
  match l with
  | [] => [x]
  | y :: l' => if x <=? y then x :: l else y :: sorted_insert x l'
  end.

(** [std::sort] on integers: the result is the ascending rearrangement of
    the input, whatever algorithm produces it. *)
Definition std_sort (l : list Z) : list Z := fold_right sorted_insert [] l.

(** [s.insert(x)] on a [std::set]: the elements stay in ascending order and
    an element already there is not added again. *)
Fixpoint set_insert (x : Z) (s : list Z) : list Z :=
  match s with
  | [] => [x]
  | y :: s' =>
      if x <? y then x :: s
      else if y <? x then y :: set_insert x s'
      else s
  end.

(** [std::set_difference(first1, last1, first2, last2, out)] on two
    ascending ranges: the merge loop of the standard library. *)
Fixpoint set_difference (l1 l2 : list Z) : list Z :=
  match l1 with
  | [] => []
  | x :: l1' =>
      (fix against (l2 : list Z) : list Z :=
         match l2 with
         | [] => l1
         | y :: l2' =>
             if x <? y then x :: set_difference l1' l2
             else if y <? x then against l2'
             else set_difference l1' l2'
         end) l2
  end.

(** ** [class RefCheckHandler] *)

Record RefCheckHandler : Type := mkHandler
  { m_nodes : bitsvec.t;
    m_ways : bitsvec.t;
    m_relation_ids : list Z;            (* std::vector<uint32_t> *)
    m_member_relation_ids : list Z;     (* std::set<uint32_t> *)
    m_missing_relation_ids : list Z;    (* std::vector<uint32_t> *)
    m_node_count : Z;
    m_way_count : Z;
    m_relation_count : Z;
    m_missing_nodes_in_ways : Z;
    m_missing_nodes_in_relations : Z;
    m_missing_ways_in_relations : Z;
    m_show_ids : bool;
    m_check_relations : bool;
    m_relations_done : bool;
    cout : list cout_line }.

(** The constructor [RefCheckHandler(vout, show_ids, check_relations)]. *)
Definition new_handler (show_ids check_relations : bool) : RefCheckHandler :=
  {| m_nodes := bitsvec.empty;
     m_ways := bitsvec.empty;
     m_relation_ids := [];
     m_member_relation_ids := [];
     m_missing_relation_ids := [];
     m_node_count := 0;
     m_way_count := 0;
     m_relation_count := 0;
     m_missing_nodes_in_ways := 0;
     m_missing_nodes_in_relations := 0;
     m_missing_ways_in_relations := 0;
     m_show_ids := show_ids;
     m_check_relations := check_relations;
     m_relations_done := false;
     cout := [] |}.

(** Field updates. *)

Definition with_nodes (h : RefCheckHandler) (b : bitsvec.t) :=
  mkHandler b (m_ways h) (m_relation_ids h) (m_member_relation_ids h)
    (m_missing_relation_ids h) (m_node_count h) (m_way_count h)
    (m_relation_count h) (m_missing_nodes_in_ways h)
    (m_missing_nodes_in_relations h) (m_missing_ways_in_relations h)
    (m_show_ids h) (m_check_relations h) (m_relations_done h) (cout h).

Definition with_ways (h : RefCheckHandler) (b : bitsvec.t) :=
  mkHandler (m_nodes h) b (m_relation_ids h) (m_member_relation_ids h)
    (m_missing_relation_ids h) (m_node_count h) (m_way_count h)
    (m_relation_count h) (m_missing_nodes_in_ways h)
    (m_missing_nodes_in_relations h) (m_missing_ways_in_relations h)
    (m_show_ids h) (m_check_relations h) (m_relations_done h) (cout h).

Definition with_relation_ids (h : RefCheckHandler) (l : list Z) :=
  mkHandler (m_nodes h) (m_ways h) l (m_member_relation_ids h)
    (m_missing_relation_ids h) (m_node_count h) (m_way_count h)
    (m_relation_count h) (m_missing_nodes_in_ways h)
    (m_missing_nodes_in_relations h) (m_missing_ways_in_relations h)
    (m_show_ids h) (m_check_relations h) (m_relations_done h) (cout h).

Definition with_member_relation_ids (h : RefCheckHandler) (l : list Z) :=
  mkHandler (m_nodes h) (m_ways h) (m_relation_ids h) l
    (m_missing_relation_ids h) (m_node_count h) (m_way_count h)
    (m_relation_count h) (m_missing_nodes_in_ways h)
    (m_missing_nodes_in_relations h) (m_missing_ways_in_relations h)
    (m_show_ids h) (m_check_relations h) (m_relations_done h) (cout h).

Definition with_reconciled (h : RefCheckHandler) (sorted missing : list Z) :=
  mkHandler (m_nodes h) (m_ways h) sorted (m_member_relation_ids h)
    missing (m_node_count h) (m_way_count h)
    (m_relation_count h) (m_missing_nodes_in_ways h)
    (m_missing_nodes_in_relations h) (m_missing_ways_in_relations h)
    (m_show_ids h) (m_check_relations h) true (cout h).

Definition with_node_count (h : RefCheckHandler) (c : Z) :=
  mkHandler (m_nodes h) (m_ways h) (m_relation_ids h) (m_member_relation_ids h)
    (m_missing_relation_ids h) c (m_way_count h)
    (m_relation_count h) (m_missing_nodes_in_ways h)
    (m_missing_nodes_in_relations h) (m_missing_ways_in_relations h)
    (m_show_ids h) (m_check_relations h) (m_relations_done h) (cout h).

Definition with_way_count (h : RefCheckHandler) (c : Z) :=
  mkHandler (m_nodes h) (m_ways h) (m_relation_ids h) (m_member_relation_ids h)
    (m_missing_relation_ids h) (m_node_count h) c
    (m_relation_count h) (m_missing_nodes_in_ways h)
    (m_missing_nodes_in_relations h) (m_missing_ways_in_relations h)
    (m_show_ids h) (m_check_relations h) (m_relations_done h) (cout h).

Definition with_relation_count (h : RefCheckHandler) (c : Z) :=
  mkHandler (m_nodes h) (m_ways h) (m_relation_ids h) (m_member_relation_ids h)
    (m_missing_relation_ids h) (m_node_count h) (m_way_count h)
    c (m_missing_nodes_in_ways h)
    (m_missing_nodes_in_relations h) (m_missing_ways_in_relations h)
    (m_show_ids h) (m_check_relations h) (m_relations_done h) (cout h).

Definition with_missing_nodes_in_ways (h : RefCheckHandler) (c : Z) :=
  mkHandler (m_nodes h) (m_ways h) (m_relation_ids h) (m_member_relation_ids h)
    (m_missing_relation_ids h) (m_node_count h) (m_way_count h)
    (m_relation_count h) c
    (m_missing_nodes_in_relations h) (m_missing_ways_in_relations h)
    (m_show_ids h) (m_check_relations h) (m_relations_done h) (cout h).

Definition with_missing_nodes_in_relations (h : RefCheckHandler) (c : Z) :=
  mkHandler (m_nodes h) (m_ways h) (m_relation_ids h) (m_member_relation_ids h)
    (m_missing_relation_ids h) (m_node_count h) (m_way_count h)
    (m_relation_count h) (m_missing_nodes_in_ways h)
    c (m_missing_ways_in_relations h)
    (m_show_ids h) (m_check_relations h) (m_relations_done h) (cout h).

Definition with_missing_ways_in_relations (h : RefCheckHandler) (c : Z) :=
  mkHandler (m_nodes h) (m_ways h) (m_relation_ids h) (m_member_relation_ids h)
    (m_missing_relation_ids h) (m_node_count h) (m_way_count h)
    (m_relation_count h) (m_missing_nodes_in_ways h)
    (m_missing_nodes_in_relations h) c
    (m_show_ids h) (m_check_relations h) (m_relations_done h) (cout h).

(** [std::cout << line] when [m_show_ids] is set. *)
Definition show (h : RefCheckHandler) (line : cout_line) :=
  if m_show_ids h then
    mkHandler (m_nodes h) (m_ways h) (m_relation_ids h)
      (m_member_relation_ids h) (m_missing_relation_ids h) (m_node_count h)
      (m_way_count h) (m_relation_count h) (m_missing_nodes_in_ways h)
      (m_missing_nodes_in_relations h) (m_missing_ways_in_relations h)
      (m_show_ids h) (m_check_relations h) (m_relations_done h)
      (cout h ++ [line])
  else h.

(** *** The callbacks *)

(** [RefCheckHandler::node]. *)
Definition handle_node (h : RefCheckHandler) (id : Z) : RefCheckHandler :=
  let h := with_node_count h (incr (m_node_count h)) in
  with_nodes h (bitsvec.set (m_nodes h) id).

(** One iteration of the loop over [way.nodes()]. *)
Definition way_node_ref (id : Z) (h : RefCheckHandler) (ref : Z)
  : RefCheckHandler :=
  if negb (bitsvec.get (m_nodes h) ref) then
    let h := with_missing_nodes_in_ways h (incr (m_missing_nodes_in_ways h)) in
    show h (n_in_w ref id)
  else h.

(** [RefCheckHandler::way]. *)
Definition handle_way (h : RefCheckHandler) (id : Z) (nodes : list Z)
  : RefCheckHandler :=
  let h := with_way_count h (incr (m_way_count h)) in
  let h := if m_check_relations h
           then with_ways h (bitsvec.set (m_ways h) id) else h in
  fold_left (way_node_ref id) nodes h.

(** One iteration of the loop over [relation.members()]. *)
Definition relation_member (id : Z) (h : RefCheckHandler) (m : RelationMember)
  : RefCheckHandler :=
  match member_type m with
  | node =>
      if negb (bitsvec.get (m_nodes h) (member_ref m)) then
        let h := with_missing_nodes_in_relations h
                   (incr (m_missing_nodes_in_relations h)) in
        let h := with_nodes h (bitsvec.set (m_nodes h) (member_ref m)) in
        show h (n_in_r (member_ref m) id)
      else h
  | way =>
      if negb (bitsvec.get (m_ways h) (member_ref m)) then
        let h := with_missing_ways_in_relations h
                   (incr (m_missing_ways_in_relations h)) in
        let h := with_ways h (bitsvec.set (m_ways h) (member_ref m)) in
        show h (w_in_r (member_ref m) id)
      else h
  | relation =>
      with_member_relation_ids h
        (set_insert (uint32_t id) (m_member_relation_ids h))
  | _ => h
  end.

(** [RefCheckHandler::relation]. *)
Definition handle_relation (h : RefCheckHandler) (id : Z)
  (members : list RelationMember) : RefCheckHandler :=
  let h := with_relation_count h (incr (m_relation_count h)) in
  if m_check_relations h then
    let h := with_relation_ids h (m_relation_ids h ++ [uint32_t id]) in
    fold_left (relation_member id) members h
  else h.

(** [missing_relations_in_relations()]: the returned count and the handler
    afterwards. *)
Definition missing_relations_in_relations (h : RefCheckHandler)
  : Z * RefCheckHandler :=
  let h :=
    if negb (m_relations_done h) then
      let sorted := std_sort (m_relation_ids h) in
      with_reconciled h sorted
        (m_missing_relation_ids h
           ++ set_difference (m_member_relation_ids h) sorted)
    else h in
  (Z.of_nat (length (m_missing_relation_ids h)), h).

(** [any_errors()]: [||] evaluates its right operand only when the left one
    is false. *)
Definition any_errors (h : RefCheckHandler) : bool * RefCheckHandler :=
  if 0 <? m_missing_nodes_in_ways h then (true, h)
  else if 0 <? m_missing_nodes_in_relations h then (true, h)
  else if 0 <? m_missing_ways_in_relations h then (true, h)
  else let (n, h) := missing_relations_in_relations h in (0 <? n, h).

(** [show_missing_relation_ids()]: one line per cached missing ID. *)
Definition show_missing_relation_ids (h : RefCheckHandler) : RefCheckHandler :=
  mkHandler (m_nodes h) (m_ways h) (m_relation_ids h)
    (m_member_relation_ids h) (m_missing_relation_ids h) (m_node_count h)
    (m_way_count h) (m_relation_count h) (m_missing_nodes_in_ways h)
    (m_missing_nodes_in_relations h) (m_missing_ways_in_relations h)
    (m_show_ids h) (m_check_relations h) (m_relations_done h)
    (cout h ++ map r_in_r (m_missing_relation_ids h)).

(** ** [osmium::apply] and [CommandCheckRefs::run] *)

(** The dispatch of one entity to the callback of its type. *)
Definition handle (h : RefCheckHandler) (e : entity) : RefCheckHandler :=
  match e with
  | Node id => handle_node h id
  | Way id nodes => handle_way h id nodes
  | Relation id members => handle_relation h id members
  end.

(** [osmium::apply(reader, handler)]: every entity of the input, in input
    order. *)
Definition apply (input : list entity) (h : RefCheckHandler)
  : RefCheckHandler :=
  fold_left handle input h.

(** [run()]: the returned [bool] and the handler at the end. *)
Definition run (show_ids check_relations : bool) (input : list entity)
  : bool * RefCheckHandler :=
  let h := apply input (new_handler show_ids check_relations) in
  let h := if check_relations
           then snd (missing_relations_in_relations h) else h in
  let h := if show_ids then show_missing_relation_ids h else h in
  let (errors, h) := any_errors h in
  (negb errors, h).

(** ** Vocabulary of the statements *)

(** Membership test used to state what [set_difference] keeps. *)
Definition mem (l : list Z) (x : Z) : bool := existsb (Z.eqb x) l.

(** The references that a presence set does not contain, one entry per
    occurrence. *)
Definition absent_refs (b : bitsvec.t) (refs : list Z) : list Z :=
  filter (fun ref => negb (bitsvec.get b ref)) refs.

(** The stream point 1; relation 100 with members (point 1), (point 2),
    (relation 200); relation 300 without members. *)
Definition scenario_C1 : list entity :=
  [ Node 1;
    Relation 100 [ {| member_type := node; member_ref := 1 |};
                   {| member_type := node; member_ref := 2 |};
                   {| member_type := relation; member_ref := 200 |} ];
    Relation 300 [] ].

(** [set] called with every ID of a list, in list order. *)
Definition mark_all (b : bitsvec.t) (ids : list Z) : bitsvec.t :=
  fold_left bitsvec.set ids b.

(** Entities whose IDs and references are [int64_t] values. *)
Definition member_ok (m : RelationMember) : Prop := object_id (member_ref m).

Definition entity_ok (e : entity) : Prop :=
  match e with
  | Node id => object_id id
  | Way id nodes => object_id id /\ Forall object_id nodes
  | Relation id members => object_id id /\ Forall member_ok members
  end.

(** A [uint64_t] counter. *)
Definition counter (c : Z) : Prop := 0 <= c < 2 ^ 64.

(** What holds of the handler while [osmium::apply] feeds it: the
    [std::set] is in ascending order without repeats, every stored relation
    ID is a [uint32_t], every member relation ID is also in
    [m_relation_ids], the reconciliation has not run, and the counters are
    [uint64_t] values. *)
Record handler_inv (h : RefCheckHandler) : Prop :=
  { inv_set : StronglySorted Z.lt (m_member_relation_ids h);
    inv_uint32 : Forall (fun id => 0 <= id < 2 ^ 32) (m_relation_ids h);
    inv_incl : incl (m_member_relation_ids h) (m_relation_ids h);
    inv_open : m_relations_done h = false;
    inv_missing : m_missing_relation_ids h = [];
    inv_nw : counter (m_missing_nodes_in_ways h);
    inv_nr : counter (m_missing_nodes_in_relations h);
    inv_wr : counter (m_missing_ways_in_relations h) }.

(** [b'] contains every ID that [b] contains. *)
Definition grows (b b' : bitsvec.t) : Prop :=
  forall y, object_id y -> bitsvec.get b y = true -> bitsvec.get b' y = true.

(** Whether a list of marked IDs has one equal to [id] up to sign. *)
Definition marked (ids : list Z) (id : Z) : bool :=
  existsb (fun m => Z.abs id =? Z.abs m) ids.

(** The handler with the [std::cout] trace dropped. *)
Definition silent (h : RefCheckHandler) : RefCheckHandler :=
  mkHandler (m_nodes h) (m_ways h) (m_relation_ids h)
    (m_member_relation_ids h) (m_missing_relation_ids h) (m_node_count h)
    (m_way_count h) (m_relation_count h) (m_missing_nodes_in_ways h)
    (m_missing_nodes_in_relations h) (m_missing_ways_in_relations h)
    (m_show_ids h) (m_check_relations h) (m_relations_done h) [].

(** ** Vocabulary for the three-phase stream *)

Definition item_type_eqb (a b : item_type) : bool :=
  match a, b with
  | undefined, undefined | node, node | way, way
  | relation, relation | area, area | changeset, changeset => true
  | _, _ => false
  end.

(** The references of the members of one type, in member order. *)
Definition refs_of (k : item_type) (members : list RelationMember) : list Z :=
  map member_ref (filter (fun m => item_type_eqb (member_type m) k) members).

(** The presence set and the counter that [relation] uses for members of
    type [k] ([node] or [way]). *)
Definition presence (k : item_type) (h : RefCheckHandler) : bitsvec.t :=
  match k with way => m_ways h | _ => m_nodes h end.

Definition missing_in_relations (k : item_type) (h : RefCheckHandler) : Z :=
  match k with
  | way => m_missing_ways_in_relations h
  | _ => m_missing_nodes_in_relations h
  end.

(** All points, then all paths, then all relations. *)
Definition stream (points : list Z) (ways : list (Z * list Z))
  (relations : list (Z * list RelationMember)) : list entity :=
  map Node points
  ++ map (fun w => Way (fst w) (snd w)) ways
  ++ map (fun r => Relation (fst r) (snd r)) relations.

(** The IDs streamed as entities of type [k]. *)
Definition streamed (k : item_type) (points : list Z)
  (ways : list (Z * list Z)) : list Z :=
  match k with way => map fst ways | _ => points end.

Definition all_members (relations : list (Z * list RelationMember))
  : list RelationMember :=
  flat_map snd relations.

(** The distinct values of [l] that [seen] does not hold of. *)
Definition new_ids (seen : Z -> bool) (l : list Z) : list Z :=
  nodup Z.eq_dec (filter (fun a => negb (seen a)) l).

(** Values that index a [bitsvec] without wrapping: [|id| <= 2^63]. *)
Definition indexable (id : Z) : Prop := Z.abs id <= 2 ^ 63.

(** The absolute values of [int64_t]s. *)
Definition abs_in_range (z : Z) : Prop := 0 <= z <= 2 ^ 63.

(** ** Vocabulary for whole runs *)

Definition is_node (e : entity) : bool :=
  match e with Node _ => true | _ => false end.

Definition is_way (e : entity) : bool :=
  match e with Way _ _ => true | _ => false end.

Definition is_relation (e : entity) : bool :=
  match e with Relation _ _ => true | _ => false end.

Definition is_n_in_w (l : cout_line) : bool :=
  match l with n_in_w _ _ => true | _ => false end.

Definition is_n_in_r (l : cout_line) : bool :=
  match l with n_in_r _ _ => true | _ => false end.

Definition is_w_in_r (l : cout_line) : bool :=
  match l with w_in_r _ _ => true | _ => false end.

Definition is_r_in_r (l : cout_line) : bool :=
  match l with r_in_r _ => true | _ => false end.

(** The number of lines of one form in the [std::cout] trace. *)
Definition shown (p : cout_line -> bool) (h : RefCheckHandler) : Z :=
  Z.of_nat (length (filter p (cout h))).

(** The relation IDs of an input, as [uint32_t], in input order. *)
Definition relation_ids_of (input : list entity) : list Z :=
  flat_map (fun e => match e with
                     | Relation id _ => [uint32_t id]
                     | _ => []
                     end) input.

(** Whether a member list has a member of type relation. *)
Definition has_relation_member (members : list RelationMember) : bool :=
  existsb (fun m => item_type_eqb (member_type m) relation) members.

(** The handler with [m_show_ids] and the [std::cout] trace dropped. *)
Definition hush (h : RefCheckHandler) : RefCheckHandler :=
  mkHandler (m_nodes h) (m_ways h) (m_relation_ids h)
    (m_member_relation_ids h) (m_missing_relation_ids h) (m_node_count h)
    (m_way_count h) (m_relation_count h) (m_missing_nodes_in_ways h)
    (m_missing_nodes_in_relations h) (m_missing_ways_in_relations h)
    false (m_check_relations h) (m_relations_done h) [].

(** The node references of all ways, one entry per occurrence. *)
Definition all_way_nodes (ways : list (Z * list Z)) : list Z :=
  flat_map snd ways.

(** What holds of the counters and the [std::cout] trace while
    [osmium::apply] feeds a handler that shows IDs. *)
Record shown_inv (h : RefCheckHandler) : Prop :=
  { shown_on : m_show_ids h = true;
    shown_nw : m_missing_nodes_in_ways h = uint64_t (shown is_n_in_w h);
    shown_nr : m_missing_nodes_in_relations h = uint64_t (shown is_n_in_r h);
    shown_wr : m_missing_ways_in_relations h = uint64_t (shown is_w_in_r h);
    shown_rr : shown is_r_in_r h = 0 }.

(** The same for a handler that does not show IDs. *)
Record quiet_inv (h : RefCheckHandler) : Prop :=
  { quiet_off : m_show_ids h = false;
    quiet_cout : cout h = [] }.

(** * Properties *)

(** ** Machine integers *)

Lemma uint64_t_small (z : Z) : 0 <= z < 2 ^ 64 -> uint64_t z = z.
Proof. intros Hz. unfold uint64_t. now apply Z.mod_small. Qed.

Lemma pid_indexable (id : Z) :
  indexable id -> uint64_t (std_abs id) = Z.abs id /\ 0 <= Z.abs id <= 2 ^ 63.
Proof.
  unfold indexable, std_abs. intros Hid.
  assert (0 <= Z.abs id <= 2 ^ 63) by lia.
  split; [apply uint64_t_small; lia | assumption].
Qed.

Lemma object_id_indexable (id : Z) : object_id id -> indexable id.
Proof. unfold object_id, indexable. lia. Qed.

Lemma abs_indexable (id : Z) : indexable id -> indexable (Z.abs id).
Proof. unfold indexable. lia. Qed.

Lemma pid_object_id (id : Z) :
  object_id id -> uint64_t (std_abs id) = Z.abs id /\ 0 <= Z.abs id <= 2 ^ 63.
Proof. intros Hid. now apply pid_indexable, object_id_indexable. Qed.

(** ** The presence set *)

Lemma bitsvec_get_empty (id : Z) : bitsvec.get bitsvec.empty id = false.
Proof.
  unfold bitsvec.get, bitsvec.empty, vector_bool.empty. simpl.
  now rewrite andb_false_r.
Qed.

Ltac case_Z_tests :=
  repeat first
    [ progress (cbn [vector_bool.size vector_bool.nth vector_bool.resize
                     vector_bool.assign bitsvec.m_bits andb orb])
    | match goal with
      | |- context [?a <=? ?b] => destruct (Z.leb_spec a b)
      | |- context [?a <? ?b] => destruct (Z.ltb_spec a b)
      | |- context [?a =? ?b] => destruct (Z.eqb_spec a b)
      end ].

Lemma bitsvec_get_set_index (b : bitsvec.t) (x y : Z) :
  indexable x -> indexable y ->
  bitsvec.get (bitsvec.set b x) y = (Z.abs y =? Z.abs x) || bitsvec.get b y.
Proof.
  intros Hx Hy.
  destruct (pid_indexable x Hx) as [Ex Rx], (pid_indexable y Hy) as [Ey Ry].
  unfold bitsvec.get, bitsvec.set. rewrite Ex, Ey.
  rewrite (uint64_t_small (Z.abs x + 1024 * 1024)) by lia.
  destruct b as [[n f]].
  case_Z_tests; try reflexivity; try lia; try (exfalso; lia).
Qed.

Lemma bitsvec_get_set (b : bitsvec.t) (x y : Z) :
  object_id x -> object_id y ->
  bitsvec.get (bitsvec.set b x) y = (Z.abs y =? Z.abs x) || bitsvec.get b y.
Proof.
  intros Hx Hy. now apply bitsvec_get_set_index; apply object_id_indexable.
Qed.

Lemma bitsvec_get_same_abs (b : bitsvec.t) (x y : Z) :
  Z.abs x = Z.abs y -> bitsvec.get b x = bitsvec.get b y.
Proof. intros E. unfold bitsvec.get, std_abs. now rewrite E. Qed.

Lemma bitsvec_capacity_set (b : bitsvec.t) (x : Z) :
  object_id x ->
  bitsvec.capacity (bitsvec.set b x) =
    if bitsvec.capacity b <=? Z.abs x
    then Z.abs x + 1024 * 1024 else bitsvec.capacity b.
Proof.
  intros Hx. destruct (pid_object_id x Hx) as [Ex Rx].
  unfold bitsvec.capacity, bitsvec.set. rewrite Ex.
  rewrite (uint64_t_small (Z.abs x + 1024 * 1024)) by lia.
  destruct b as [[n f]].
  case_Z_tests; try reflexivity; try lia; exfalso; lia.
Qed.

(** ** Sorting and the set operations *)

Lemma sorted_insert_In (x y : Z) (l : list Z) :
  In y (sorted_insert x l) <-> y = x \/ In y l.
Proof.
  induction l as [| z l IH]; simpl.
  - intuition.
  - destruct (x <=? z); simpl; rewrite ?IH; intuition.
Qed.

Lemma sorted_insert_sorted (x : Z) (l : list Z) :
  StronglySorted Z.le l -> StronglySorted Z.le (sorted_insert x l).
Proof.
  induction 1 as [| z l Hl IH Hz]; simpl.
  - repeat constructor.
  - destruct (Z.leb_spec x z) as [Hle | Hgt].
    + constructor; [now constructor |].
      constructor; [assumption |].
      eapply Forall_impl; [| exact Hz]. intros; lia.
    + constructor; [assumption |].
      apply Forall_forall. intros y Hy.
      apply sorted_insert_In in Hy as [-> | Hy]; [lia |].
      rewrite Forall_forall in Hz. now apply Hz.
Qed.

Lemma std_sort_In (x : Z) (l : list Z) : In x (std_sort l) <-> In x l.
Proof.
  induction l as [| y l IH]; simpl; [reflexivity |].
  rewrite sorted_insert_In, IH. intuition.
Qed.

Lemma std_sort_sorted (l : list Z) : StronglySorted Z.le (std_sort l).
Proof.
  induction l as [| y l IH]; simpl; [constructor |].
  now apply sorted_insert_sorted.
Qed.

Lemma set_insert_In (x y : Z) (s : list Z) :
  In y (set_insert x s) <-> y = x \/ In y s.
Proof.
  induction s as [| z s IH]; simpl.
  - intuition.
  - destruct (Z.ltb_spec x z); simpl; [intuition |].
    destruct (Z.ltb_spec z x); simpl; rewrite ?IH; [intuition |].
    assert (x = z) by lia. subst. intuition.
Qed.

Lemma set_insert_sorted (x : Z) (s : list Z) :
  StronglySorted Z.lt s -> StronglySorted Z.lt (set_insert x s).
Proof.
  induction 1 as [| z s Hs IH Hz]; simpl.
  - repeat constructor.
  - destruct (Z.ltb_spec x z) as [Hlt | Hge].
    + constructor; [now constructor |].
      constructor; [assumption |].
      eapply Forall_impl; [| exact Hz]. intros; lia.
    + destruct (Z.ltb_spec z x) as [Hlt | Hle]; [| now constructor].
      constructor; [assumption |].
      apply Forall_forall. intros y Hy.
      apply set_insert_In in Hy as [-> | Hy]; [lia |].
      rewrite Forall_forall in Hz. now apply Hz.
Qed.

Lemma mem_In (l : list Z) (x : Z) : mem l x = true <-> In x l.
Proof.
  unfold mem. rewrite existsb_exists. split.
  - intros (y & Hy & E). apply Z.eqb_eq in E. now subst.
  - intros H. exists x. split; [assumption | apply Z.eqb_refl].
Qed.

Lemma mem_false (l : list Z) (x : Z) : mem l x = false <-> ~ In x l.
Proof.
  rewrite <- mem_In. destruct (mem l x); intuition congruence.
Qed.

Lemma filter_all (f : Z -> bool) (l : list Z) :
  (forall x, In x l -> f x = true) -> filter f l = l.
Proof.
  induction l as [| y l IH]; simpl; intros H; [reflexivity |].
  rewrite H by now left. f_equal. apply IH. intros; apply H. now right.
Qed.

Lemma filter_none (f : Z -> bool) (l : list Z) :
  (forall x, In x l -> f x = false) -> filter f l = [].
Proof.
  induction l as [| y l IH]; simpl; intros H; [reflexivity |].
  rewrite H by now left. apply IH. intros; apply H. now right.
Qed.

Lemma set_difference_filter (l1 : list Z) :
  StronglySorted Z.lt l1 ->
  forall l2, StronglySorted Z.le l2 ->
  set_difference l1 l2 = filter (fun x => negb (mem l2 x)) l1.
Proof.
  induction 1 as [| x l1 Hl1 IH Hx].
  - reflexivity.
  - rewrite Forall_forall in Hx.
    induction 1 as [| y l2 Hl2 IH2 Hy].
    + cbn [set_difference]. symmetry. apply filter_all. reflexivity.
    + assert (Hsorted : StronglySorted Z.le (y :: l2)) by now constructor.
      rewrite Forall_forall in Hy.
      cbn [set_difference].
      destruct (Z.ltb_spec x y) as [Hxy | Hyx].
      * rewrite IH by assumption.
        cbn [filter].
        replace (mem (y :: l2) x) with false; [reflexivity |].
        symmetry. apply mem_false. intros [-> | Hin]; [lia |].
        specialize (Hy _ Hin). lia.
      * destruct (Z.ltb_spec y x) as [Hlt | Hle].
        -- change (set_difference (x :: l1) l2 =
                   filter (fun z => negb (mem (y :: l2) z)) (x :: l1)).
           rewrite IH2. apply filter_ext_in.
           intros z Hz. f_equal. unfold mem. simpl.
           replace (z =? y) with false; [reflexivity |].
           symmetry. apply Z.eqb_neq.
           destruct Hz as [<- | Hz]; [lia |]. specialize (Hx _ Hz). lia.
        -- assert (x = y) by lia. subst y.
           rewrite IH by assumption.
           cbn [filter].
           replace (mem (x :: l2) x) with true
             by (symmetry; apply mem_In; now left).
           cbn [negb]. apply filter_ext_in.
           intros z Hz. f_equal. unfold mem. simpl.
           replace (z =? x) with false; [reflexivity |].
           symmetry. apply Z.eqb_neq. specialize (Hx _ Hz). lia.
Qed.

Lemma filter_sorted (f : Z -> bool) (l : list Z) :
  StronglySorted Z.lt l -> StronglySorted Z.lt (filter f l).
Proof.
  induction 1 as [| x l Hl IH Hx]; simpl; [constructor |].
  destruct (f x); [| assumption].
  constructor; [assumption |].
  rewrite Forall_forall in *. intros y Hy.
  apply filter_In in Hy. now apply Hx.
Qed.

(** ** Counters *)

Lemma incr_range (c : Z) : 0 <= incr c < 2 ^ 64.
Proof. unfold incr, uint64_t. apply Z.mod_pos_bound. lia. Qed.

Lemma uint64_t_incr_add (c n : Z) :
  uint64_t (incr c + n) = uint64_t (c + (1 + n)).
Proof.
  unfold incr, uint64_t. rewrite Zplus_mod_idemp_l. f_equal. lia.
Qed.

(** ** Frame facts of the callbacks *)

Ltac frame_show :=
  match goal with h : RefCheckHandler |- _ => destruct h end;
  unfold show; cbn;
  match goal with |- context [if ?b then _ else _] => destruct b end;
  reflexivity.

Lemma show_nodes h l : m_nodes (show h l) = m_nodes h.
Proof. frame_show. Qed.
Lemma show_ways h l : m_ways (show h l) = m_ways h.
Proof. frame_show. Qed.
Lemma show_relation_ids h l : m_relation_ids (show h l) = m_relation_ids h.
Proof. frame_show. Qed.
Lemma show_member_relation_ids h l :
  m_member_relation_ids (show h l) = m_member_relation_ids h.
Proof. frame_show. Qed.
Lemma show_missing_relation_ids_field h l :
  m_missing_relation_ids (show h l) = m_missing_relation_ids h.
Proof. frame_show. Qed.
Lemma show_relation_count h l :
  m_relation_count (show h l) = m_relation_count h.
Proof. frame_show. Qed.
Lemma show_missing_nodes_in_ways h l :
  m_missing_nodes_in_ways (show h l) = m_missing_nodes_in_ways h.
Proof. frame_show. Qed.
Lemma show_missing_nodes_in_relations h l :
  m_missing_nodes_in_relations (show h l) = m_missing_nodes_in_relations h.
Proof. frame_show. Qed.
Lemma show_missing_ways_in_relations h l :
  m_missing_ways_in_relations (show h l) = m_missing_ways_in_relations h.
Proof. frame_show. Qed.
Lemma show_check_relations h l :
  m_check_relations (show h l) = m_check_relations h.
Proof. frame_show. Qed.
Lemma show_show_ids h l : m_show_ids (show h l) = m_show_ids h.
Proof. frame_show. Qed.
Lemma show_relations_done h l :
  m_relations_done (show h l) = m_relations_done h.
Proof. frame_show. Qed.

Create Rewrite HintDb frame.
#[local] Hint Rewrite show_nodes show_ways show_relation_ids
  show_member_relation_ids show_missing_relation_ids_field show_relation_count
  show_missing_nodes_in_ways show_missing_nodes_in_relations
  show_missing_ways_in_relations show_check_relations show_show_ids
  show_relations_done : frame.

(** Unfold one loop iteration, split on its tests and compare fields. *)
Ltac frame_step f :=
  unfold f;
  repeat match goal with
    | |- context [match member_type ?m with _ => _ end] =>
        destruct (member_type m)
    | |- context [if negb ?b then _ else _] => destruct b; cbn [negb]
    end;
  autorewrite with frame; reflexivity.

(** *** The loop over [way.nodes()] *)

Section WayLoop.

Variable id : Z.

Lemma way_node_ref_nodes h ref :
  m_nodes (way_node_ref id h ref) = m_nodes h.
Proof. frame_step way_node_ref. Qed.

Lemma way_node_ref_ways h ref :
  m_ways (way_node_ref id h ref) = m_ways h.
Proof. frame_step way_node_ref. Qed.

Lemma way_node_ref_missing h ref :
  m_missing_nodes_in_ways (way_node_ref id h ref) =
    if bitsvec.get (m_nodes h) ref
    then m_missing_nodes_in_ways h
    else incr (m_missing_nodes_in_ways h).
Proof. frame_step way_node_ref. Qed.

Lemma way_loop_nodes refs : forall h,
  m_nodes (fold_left (way_node_ref id) refs h) = m_nodes h.
Proof.
  induction refs as [| ref refs IH]; intros h; simpl; [reflexivity |].
  now rewrite IH, way_node_ref_nodes.
Qed.

Lemma way_loop_ways refs : forall h,
  m_ways (fold_left (way_node_ref id) refs h) = m_ways h.
Proof.
  induction refs as [| ref refs IH]; intros h; simpl; [reflexivity |].
  now rewrite IH, way_node_ref_ways.
Qed.

Lemma way_loop_missing refs : forall h,
  0 <= m_missing_nodes_in_ways h < 2 ^ 64 ->
  m_missing_nodes_in_ways (fold_left (way_node_ref id) refs h) =
    uint64_t (m_missing_nodes_in_ways h
              + Z.of_nat (length (absent_refs (m_nodes h) refs))).
Proof.
  induction refs as [| ref refs IH]; intros h Hc.
  - simpl. rewrite Z.add_0_r. symmetry. now apply uint64_t_small.
  - cbn [fold_left]. rewrite IH.
    + rewrite way_node_ref_nodes, way_node_ref_missing.
      unfold absent_refs. cbn [filter].
      destruct (bitsvec.get (m_nodes h) ref); cbn [negb]; [reflexivity |].
      rewrite uint64_t_incr_add. f_equal. cbn [length]. lia.
    + rewrite way_node_ref_missing.
      destruct (bitsvec.get (m_nodes h) ref);
        [assumption | apply incr_range].
Qed.

End WayLoop.


(** ** Paths *)

Lemma handle_way_nodes h id nodes : m_nodes (handle_way h id nodes) = m_nodes h.
Proof.
  unfold handle_way. rewrite way_loop_nodes.
  destruct h as [? ? ? ? ? ? ? ? ? ? ? ? [] ? ?]; reflexivity.
Qed.

Lemma handle_way_missing h id nodes :
  0 <= m_missing_nodes_in_ways h < 2 ^ 64 ->
  m_missing_nodes_in_ways (handle_way h id nodes) =
    uint64_t (m_missing_nodes_in_ways h
              + Z.of_nat (length (absent_refs (m_nodes h) nodes))).
Proof.
  intros Hc. unfold handle_way. rewrite way_loop_missing.
  - destruct h as [? ? ? ? ? ? ? ? ? ? ? ? [] ? ?]; reflexivity.
  - destruct h as [? ? ? ? ? ? ? ? ? ? ? ? [] ? ?]; exact Hc.
Qed.

(** C3: [way] adds one to [m_missing_nodes_in_ways] for every occurrence, in
    the way's node list, of a reference that [m_nodes] does not contain
    (duplicates included, the [uint64_t] counter wrapping at [2^64]), and
    leaves [m_nodes] as it was, so a missing reference stays missing: the
    same holds for each single iteration of the loop. *)
Theorem C3_way_counts_every_missing_occurrence
  (h : RefCheckHandler) (id : Z) (nodes : list Z) :
  0 <= m_missing_nodes_in_ways h < 2 ^ 64 ->
  let missing := absent_refs (m_nodes h) nodes in
  let h' := handle_way h id nodes in
  m_missing_nodes_in_ways h' =
    uint64_t (m_missing_nodes_in_ways h + Z.of_nat (length missing))
  /\ (m_missing_nodes_in_ways h + Z.of_nat (length missing) < 2 ^ 64 ->
      m_missing_nodes_in_ways h' =
        m_missing_nodes_in_ways h + Z.of_nat (length missing))
  /\ m_nodes h' = m_nodes h
  /\ (forall ref, In ref missing -> bitsvec.get (m_nodes h') ref = false)
  /\ (forall g ref,
        bitsvec.get (m_nodes g) ref = false ->
        m_missing_nodes_in_ways (way_node_ref id g ref) =
          incr (m_missing_nodes_in_ways g)
        /\ m_nodes (way_node_ref id g ref) = m_nodes g).
Proof.
  intros Hc missing h'. subst h'.
  rewrite handle_way_missing, handle_way_nodes by assumption.
  repeat split.
  - intros Hfit. apply uint64_t_small. lia.
  - intros ref Hin. apply filter_In in Hin as [_ Hin].
    now apply negb_true_iff in Hin.
  - rewrite way_node_ref_missing. now rewrite H.
  - apply way_node_ref_nodes.
Qed.

Lemma C3_way_counts_every_missing_occurrence_witness :
  let h := apply [Node 1; Node 2] (new_handler false false) in
  m_missing_nodes_in_ways (handle_way h 10 [1; 3; 2; 3]) = 2
  /\ bitsvec.get (m_nodes (handle_way h 10 [1; 3; 2; 3])) 3 = false.
Proof.
  intros h.
  destruct (C3_way_counts_every_missing_occurrence h 10 [1; 3; 2; 3])
    as (_ & Hexact & _ & Hstay & _).
  - vm_compute. split; [discriminate | reflexivity].
  - split.
    + rewrite Hexact; [reflexivity | vm_compute; reflexivity].
    + apply Hstay. vm_compute. auto.
Defined.

(** ** Relation checking disabled *)

(** C9: with [m_check_relations] unset, [relation] changes
    [m_relation_count] and nothing else, whatever the members are; and [way]
    leaves [m_ways] as it was while still counting the way's node references
    that [m_nodes] does not contain. *)
Theorem C9_relation_checking_disabled
  (h : RefCheckHandler) (id : Z) (members : list RelationMember)
  (wid : Z) (nodes : list Z) :
  m_check_relations h = false ->
  0 <= m_missing_nodes_in_ways h < 2 ^ 64 ->
  handle_relation h id members =
    with_relation_count h (incr (m_relation_count h))
  /\ m_ways (handle_way h wid nodes) = m_ways h
  /\ (forall x, bitsvec.get (m_ways (handle_way h wid nodes)) x
                = bitsvec.get (m_ways h) x)
  /\ m_missing_nodes_in_ways (handle_way h wid nodes) =
       uint64_t (m_missing_nodes_in_ways h
                 + Z.of_nat (length (absent_refs (m_nodes h) nodes))).
Proof.
  intros Hoff Hc.
  assert (Hways : m_ways (handle_way h wid nodes) = m_ways h).
  { unfold handle_way. rewrite way_loop_ways.
    destruct h; cbn in *. now rewrite Hoff. }
  repeat split.
  - unfold handle_relation. destruct h; cbn in *. now rewrite Hoff.
  - exact Hways.
  - intros x. now rewrite Hways.
  - now apply handle_way_missing.
Qed.

Lemma C9_relation_checking_disabled_witness :
  let h := apply [Node 1] (new_handler true false) in
  handle_relation h 100
    [ {| member_type := node; member_ref := 2 |};
      {| member_type := relation; member_ref := 200 |} ]
  = with_relation_count h 1
  /\ bitsvec.get (m_ways (handle_way h 10 [1; 2])) 10 = false
  /\ m_missing_nodes_in_ways (handle_way h 10 [1; 2]) = 1.
Proof.
  intros h.
  destruct (C9_relation_checking_disabled h 100
              [ {| member_type := node; member_ref := 2 |};
                {| member_type := relation; member_ref := 200 |} ]
              10 [1; 2])
    as (Hrel & _ & Hways & Hcount).
  - reflexivity.
  - vm_compute. split; [discriminate | reflexivity].
  - split; [exact Hrel |].
    split; [rewrite Hways; reflexivity | rewrite Hcount; reflexivity].
Defined.

(** ** The handler during the pass *)

Lemma uint32_t_range (z : Z) : 0 <= uint32_t z < 2 ^ 32.
Proof. unfold uint32_t. apply Z.mod_pos_bound. lia. Qed.

Lemma new_handler_inv (show_ids check_relations : bool) :
  handler_inv (new_handler show_ids check_relations).
Proof.
  constructor; cbn; unfold counter; try reflexivity; try lia.
  - constructor.
  - constructor.
  - intros x [].
Qed.

Ltac split_step :=
  repeat match goal with
    | |- context [match member_type ?m with _ => _ end] =>
        destruct (member_type m)
    | |- context [if negb ?b then _ else _] => destruct b; cbn [negb]
    | |- context [if ?b then _ else _] => destruct b
    end.

Lemma handle_node_inv h id : handler_inv h -> handler_inv (handle_node h id).
Proof. intros []. constructor; assumption. Qed.

Lemma way_node_ref_inv id h ref :
  handler_inv h -> handler_inv (way_node_ref id h ref).
Proof.
  intros []. unfold way_node_ref, show. split_step;
    constructor; try assumption; apply incr_range.
Qed.

Lemma way_loop_inv id refs : forall h,
  handler_inv h -> handler_inv (fold_left (way_node_ref id) refs h).
Proof.
  induction refs as [| ref refs IH]; intros h Hh; simpl; [assumption |].
  apply IH. now apply way_node_ref_inv.
Qed.

Lemma handle_way_inv h id nodes :
  handler_inv h -> handler_inv (handle_way h id nodes).
Proof.
  intros Hh. unfold handle_way. apply way_loop_inv.
  destruct Hh. split_step; constructor; assumption.
Qed.

Lemma relation_member_inv id h m :
  In (uint32_t id) (m_relation_ids h) ->
  handler_inv h ->
  handler_inv (relation_member id h m)
  /\ m_relation_ids (relation_member id h m) = m_relation_ids h.
Proof.
  intros Hid Hh. split; [| frame_step relation_member].
  destruct Hh. unfold relation_member, show. split_step;
    constructor; try assumption; try apply incr_range; cbn.
  - now apply set_insert_sorted.
  - intros x Hx. apply set_insert_In in Hx as [-> | Hx]; auto.
Qed.

Lemma relation_loop_inv id members : forall h,
  In (uint32_t id) (m_relation_ids h) ->
  handler_inv h ->
  handler_inv (fold_left (relation_member id) members h).
Proof.
  induction members as [| m members IH]; intros h Hid Hh; simpl;
    [assumption |].
  destruct (relation_member_inv id h m Hid Hh) as [Hh' E].
  apply IH; [now rewrite E | assumption].
Qed.

Lemma handle_relation_inv h id members :
  handler_inv h -> handler_inv (handle_relation h id members).
Proof.
  intros Hh. unfold handle_relation.
  destruct h as [? ? ? ? ? ? ? ? ? ? ? ? [] ? ?]; cbn.
  - apply relation_loop_inv; cbn.
    + apply in_or_app. right. now left.
    + destruct Hh; cbn in *. constructor; cbn; try assumption.
      * apply Forall_app. split; [assumption |].
        constructor; [apply uint32_t_range | constructor].
      * intros x Hx. apply in_or_app. left. auto.
  - destruct Hh. constructor; assumption.
Qed.

Lemma handle_inv h e : handler_inv h -> handler_inv (handle h e).
Proof.
  destruct e; cbn.
  - apply handle_node_inv.
  - apply handle_way_inv.
  - apply handle_relation_inv.
Qed.

Lemma apply_inv input : forall h, handler_inv h -> handler_inv (apply input h).
Proof.
  unfold apply. induction input as [| e input IH]; intros h Hh; simpl;
    [assumption |].
  apply IH. now apply handle_inv.
Qed.

(** ** Reconciliation *)

Lemma reconciled_done h :
  m_relations_done h = true ->
  missing_relations_in_relations h =
    (Z.of_nat (length (m_missing_relation_ids h)), h).
Proof.
  intros Hdone. unfold missing_relations_in_relations. now rewrite Hdone.
Qed.

Lemma reconcile_open h :
  m_relations_done h = false ->
  m_missing_relation_ids h = [] ->
  StronglySorted Z.lt (m_member_relation_ids h) ->
  let missing :=
    filter (fun id => negb (mem (m_relation_ids h) id))
      (m_member_relation_ids h) in
  missing_relations_in_relations h =
    (Z.of_nat (length missing),
     with_reconciled h (std_sort (m_relation_ids h)) missing).
Proof.
  intros Hopen Hnil Hset missing.
  unfold missing_relations_in_relations. rewrite Hopen, Hnil. cbn.
  rewrite set_difference_filter by (assumption || apply std_sort_sorted).
  assert (E : filter (fun x => negb (mem (std_sort (m_relation_ids h)) x))
                (m_member_relation_ids h) = missing).
  { apply filter_ext. intros x. f_equal.
    destruct (mem (m_relation_ids h) x) eqn:Hm.
    - apply mem_In. apply std_sort_In. now apply mem_In.
    - apply mem_false. rewrite std_sort_In. now apply mem_false. }
  now rewrite E.
Qed.

(** C4: the first call of [missing_relations_in_relations] leaves in
    [m_missing_relation_ids] exactly the member relation IDs that are not in
    [m_relation_ids], in strictly ascending order, sets [m_relations_done]
    and returns their number; a second call returns the same number and
    leaves the handler as the first call left it. *)
Theorem C4_reconciliation_runs_once (h : RefCheckHandler) :
  m_relations_done h = false ->
  m_missing_relation_ids h = [] ->
  StronglySorted Z.lt (m_member_relation_ids h) ->
  let first := missing_relations_in_relations h in
  let second := missing_relations_in_relations (snd first) in
  (forall id, In id (m_missing_relation_ids (snd first)) <->
              In id (m_member_relation_ids h) /\ ~ In id (m_relation_ids h))
  /\ StronglySorted Z.lt (m_missing_relation_ids (snd first))
  /\ m_relations_done (snd first) = true
  /\ fst first = Z.of_nat (length (m_missing_relation_ids (snd first)))
  /\ fst second = fst first
  /\ snd second = snd first.
Proof.
  intros Hopen Hnil Hset first second. subst second first.
  rewrite (reconcile_open h Hopen Hnil Hset). cbn [fst snd].
  rewrite reconciled_done by reflexivity. cbn.
  repeat split; try tauto.
  - apply filter_In in H. tauto.
  - apply filter_In in H as [_ H]. apply negb_true_iff in H.
    now apply mem_false.
  - intros [Hin Hout]. apply filter_In. split; [assumption |].
    apply negb_true_iff. now apply mem_false.
  - now apply filter_sorted.
Qed.

Lemma C4_reconciliation_runs_once_witness :
  let h := with_member_relation_ids
             (with_relation_ids (new_handler false true) [300; 100; 300])
             [100; 200; 250] in
  let first := missing_relations_in_relations h in
  m_missing_relation_ids (snd first) = [200; 250]
  /\ missing_relations_in_relations (snd first) = (2, snd first).
Proof.
  intros h first.
  destruct (C4_reconciliation_runs_once h) as (_ & _ & _ & _ & Hn & Hh).
  - reflexivity.
  - reflexivity.
  - repeat constructor.
  - split; [reflexivity |].
    fold first in Hn, Hh.
    rewrite (surjective_pairing (missing_relations_in_relations (snd first))).
    now rewrite Hn, Hh.
Defined.

(** ** The presence set under sequences of marks *)

Lemma grows_refl b : grows b b.
Proof. intros y _ H. exact H. Qed.

Lemma grows_trans b1 b2 b3 : grows b1 b2 -> grows b2 b3 -> grows b1 b3.
Proof. intros H12 H23 y Hy H. apply H23, H12; assumption. Qed.

Lemma grows_set b x : object_id x -> grows b (bitsvec.set b x).
Proof.
  intros Hx y Hy H. rewrite bitsvec_get_set by assumption.
  rewrite H. apply orb_true_r.
Qed.

Lemma mark_all_get_index ids : forall b y,
  Forall object_id ids -> indexable y ->
  bitsvec.get (mark_all b ids) y = marked ids y || bitsvec.get b y.
Proof.
  unfold mark_all.
  induction ids as [| m ids IH]; intros b y Hids Hy; [reflexivity |].
  inversion Hids as [| ? ? Hm Hids']; subst.
  cbn [fold_left]. rewrite IH by assumption.
  rewrite bitsvec_get_set_index
    by (assumption || now apply object_id_indexable).
  unfold marked. cbn [existsb].
  destruct (Z.abs y =? Z.abs m); cbn [orb];
    [now rewrite !orb_true_r | reflexivity].
Qed.

Lemma mark_all_get ids b y :
  Forall object_id ids -> object_id y ->
  bitsvec.get (mark_all b ids) y = marked ids y || bitsvec.get b y.
Proof.
  intros Hids Hy. now apply mark_all_get_index, object_id_indexable.
Qed.

Lemma marked_spec ids id :
  marked ids id = true <-> exists m, In m ids /\ Z.abs m = Z.abs id.
Proof.
  unfold marked. rewrite existsb_exists. split.
  - intros (m & Hm & E). apply Z.eqb_eq in E. eauto.
  - intros (m & Hm & E). exists m. split; [assumption |].
    apply Z.eqb_eq. congruence.
Qed.

Lemma marked_Permutation ids ids' id :
  Permutation ids ids' -> marked ids id = marked ids' id.
Proof.
  intros HP.
  destruct (marked ids id) eqn:E1, (marked ids' id) eqn:E2; try reflexivity.
  - apply marked_spec in E1 as (m & Hm & E).
    assert (marked ids' id = true) as E3; [| congruence].
    apply marked_spec. exists m. split; [| assumption].
    eapply Permutation_in; eassumption.
  - apply marked_spec in E2 as (m & Hm & E).
    assert (marked ids id = true) as E3; [| congruence].
    apply marked_spec. exists m. split; [| assumption].
    eapply Permutation_in; [symmetry |]; eassumption.
Qed.

Lemma bitsvec_get_beyond b id :
  object_id id -> bitsvec.capacity b <= Z.abs id -> bitsvec.get b id = false.
Proof.
  intros Hid Hcap. destruct (pid_object_id id Hid) as [E _].
  unfold bitsvec.get, bitsvec.capacity in *. rewrite E.
  destruct (Z.ltb_spec (Z.abs id) (vector_bool.size (bitsvec.m_bits b)));
    [lia | reflexivity].
Qed.

Lemma capacity_set_bounds b id :
  object_id id ->
  Z.abs id + 1 <= bitsvec.capacity (bitsvec.set b id)
  /\ bitsvec.capacity b <= bitsvec.capacity (bitsvec.set b id).
Proof.
  intros Hid. rewrite bitsvec_capacity_set by assumption.
  destruct (Z.leb_spec (bitsvec.capacity b) (Z.abs id)); lia.
Qed.

Lemma mark_all_capacity ids : forall b,
  Forall object_id ids ->
  bitsvec.capacity b <= bitsvec.capacity (mark_all b ids)
  /\ forall m, In m ids -> Z.abs m + 1 <= bitsvec.capacity (mark_all b ids).
Proof.
  unfold mark_all.
  induction ids as [| a ids IH]; intros b Hids; cbn [fold_left].
  - split; [lia | intros m []].
  - inversion Hids as [| ? ? Ha Hids']; subst.
    destruct (IH (bitsvec.set b a) Hids') as [Hle Hall].
    destruct (capacity_set_bounds b a Ha) as [Hfit Hmono].
    split; [lia |].
    intros m [<- | Hm]; [lia | now apply Hall].
Qed.

(** ** The presence sets of the handler *)

Lemma relation_member_grows id h m :
  member_ok m ->
  grows (m_nodes h) (m_nodes (relation_member id h m))
  /\ grows (m_ways h) (m_ways (relation_member id h m)).
Proof.
  intros Hm. unfold relation_member.
  split_step; autorewrite with frame; cbn;
    split; try apply grows_refl; now apply grows_set.
Qed.

Lemma relation_loop_grows id members : forall h,
  Forall member_ok members ->
  grows (m_nodes h) (m_nodes (fold_left (relation_member id) members h))
  /\ grows (m_ways h) (m_ways (fold_left (relation_member id) members h)).
Proof.
  induction members as [| m members IH]; intros h Hms; cbn [fold_left].
  - split; apply grows_refl.
  - inversion Hms as [| ? ? Hm Hms']; subst.
    destruct (relation_member_grows id h m Hm) as [Hn Hw].
    destruct (IH (relation_member id h m) Hms') as [Hn' Hw'].
    split; eapply grows_trans; eassumption.
Qed.

Lemma handle_grows h e :
  entity_ok e ->
  grows (m_nodes h) (m_nodes (handle h e))
  /\ grows (m_ways h) (m_ways (handle h e)).
Proof.
  destruct e as [id | id nodes | id members]; cbn [entity_ok handle].
  - intros Hid. split; [now apply grows_set | apply grows_refl].
  - intros [Hid _]. rewrite handle_way_nodes. split; [apply grows_refl |].
    unfold handle_way. rewrite way_loop_ways.
    destruct h as [? ? ? ? ? ? ? ? ? ? ? ? [] ? ?]; cbn;
      [now apply grows_set | apply grows_refl].
  - intros [_ Hms]. unfold handle_relation.
    destruct h as [? ? ? ? ? ? ? ? ? ? ? ? [] ? ?]; cbn.
    + match goal with |- context [fold_left _ members ?g] =>
        exact (relation_loop_grows id members g Hms) end.
    + split; apply grows_refl.
Qed.

Lemma apply_grows input : forall h,
  Forall entity_ok input ->
  grows (m_nodes h) (m_nodes (apply input h))
  /\ grows (m_ways h) (m_ways (apply input h)).
Proof.
  unfold apply.
  induction input as [| e input IH]; intros h Hin; cbn [fold_left].
  - split; apply grows_refl.
  - inversion Hin as [| ? ? He Hin']; subst.
    destruct (handle_grows h e He) as [Hn Hw].
    destruct (IH (handle h e) Hin') as [Hn' Hw'].
    split; eapply grows_trans; eassumption.
Qed.

Lemma reconcile_presence h :
  m_nodes (snd (missing_relations_in_relations h)) = m_nodes h
  /\ m_ways (snd (missing_relations_in_relations h)) = m_ways h.
Proof.
  unfold missing_relations_in_relations.
  destruct (m_relations_done h); cbn; split; reflexivity.
Qed.

Lemma any_errors_presence h :
  m_nodes (snd (any_errors h)) = m_nodes h
  /\ m_ways (snd (any_errors h)) = m_ways h.
Proof.
  unfold any_errors.
  destruct (0 <? m_missing_nodes_in_ways h); [split; reflexivity |].
  destruct (0 <? m_missing_nodes_in_relations h); [split; reflexivity |].
  destruct (0 <? m_missing_ways_in_relations h); [split; reflexivity |].
  pose proof (reconcile_presence h) as Hp.
  destruct (missing_relations_in_relations h) as [n h']. exact Hp.
Qed.

(** ** Claims about the presence set *)

(** C6, as stated, fails: after [set(5)] alone, [get(-5)] answers [true]
    although [-5] was never marked. *)
Lemma C6_never_marked_id_reported_present :
  ~ (forall (marks : list Z) (id : Z),
       Forall object_id marks -> object_id id ->
       (bitsvec.get (mark_all bitsvec.empty marks) id = true <-> In id marks)).
Proof.
  intros Hclaim.
  assert (H5 : object_id 5) by (unfold object_id; lia).
  assert (Hm5 : object_id (-5)) by (unfold object_id; lia).
  destruct (Hclaim [5] (-5) (Forall_cons 5 H5 (Forall_nil _)) Hm5)
    as [Hin _].
  destruct (Hin eq_refl) as [Heq | []]. discriminate Heq.
Qed.

(** C6, amended: after any finite sequence of [set] calls on an empty
    [bitsvec], [get(id)] is [true] exactly when some marked ID equals [id] up
    to sign, so for non-negative IDs exactly when [id] itself was marked; the
    answer is the same for every reordering of the calls; and [get] answers
    [false] for any ID whose index is not below the capacity. *)
Theorem C6_contains_iff_marked_up_to_sign (marks marks' : list Z) (id : Z) :
  Forall object_id marks -> object_id id -> Permutation marks marks' ->
  let b := mark_all bitsvec.empty marks in
  (bitsvec.get b id = true <-> exists m, In m marks /\ Z.abs m = Z.abs id)
  /\ (0 <= id -> Forall (fun m => 0 <= m) marks ->
      (bitsvec.get b id = true <-> In id marks))
  /\ bitsvec.get (mark_all bitsvec.empty marks') id = bitsvec.get b id
  /\ (forall c : bitsvec.t,
        bitsvec.capacity c <= Z.abs id -> bitsvec.get c id = false).
Proof.
  intros Hmarks Hid Hperm b. subst b.
  assert (Hmarks' : Forall object_id marks')
    by (eapply Permutation_Forall; eassumption).
  rewrite !mark_all_get by assumption.
  rewrite bitsvec_get_empty, !orb_false_r.
  repeat split.
  - apply marked_spec.
  - apply marked_spec.
  - intros Hmk. apply marked_spec in Hmk as (m & Hm & E).
    rewrite Forall_forall in H0. specialize (H0 m Hm).
    assert (m = id) by lia. now subst.
  - intros Hin. apply marked_spec. eauto.
  - symmetry. now apply marked_Permutation.
  - intros c Hc. now apply bitsvec_get_beyond.
Qed.

Lemma C6_contains_iff_marked_up_to_sign_witness :
  bitsvec.get (mark_all bitsvec.empty [7; -3]) 3 = true
  /\ bitsvec.get (mark_all bitsvec.empty [-3; 7]) 3
     = bitsvec.get (mark_all bitsvec.empty [7; -3]) 3
  /\ bitsvec.get (mark_all bitsvec.empty [7; -3]) 5000000 = false.
Proof.
  assert (Hmarks : Forall object_id [7; -3])
    by (repeat constructor; unfold object_id; lia).
  assert (H3 : object_id 3) by (unfold object_id; lia).
  assert (Hbig : object_id 5000000) by (unfold object_id; lia).
  destruct (C6_contains_iff_marked_up_to_sign [7; -3] [-3; 7] 3 Hmarks H3
              (perm_swap _ _ _)) as ([_ Hget] & _ & Hperm & _).
  destruct (C6_contains_iff_marked_up_to_sign [7; -3] [-3; 7] 5000000
              Hmarks Hbig (perm_swap _ _ _)) as (_ & _ & _ & Hbeyond).
  split; [| split].
  - apply Hget. exists (-3). split; [right; left; reflexivity | reflexivity].
  - exact Hperm.
  - apply Hbeyond. vm_compute. discriminate.
Defined.

(** C7: [set] and [get] both index by the absolute value of the ID, so after
    [set(x)] the query [get(-x)] answers [true], and after [set(-x)] the query
    [get(x)] answers [true]. *)
Theorem C7_sign_is_ignored (b : bitsvec.t) (x : Z) :
  object_id x -> object_id (- x) ->
  bitsvec.get (bitsvec.set b x) (- x) = true
  /\ bitsvec.get (bitsvec.set b (- x)) x = true.
Proof.
  intros Hx Hnx. rewrite !bitsvec_get_set by assumption.
  rewrite Z.abs_opp, Z.eqb_refl. split; reflexivity.
Qed.

Lemma C7_sign_is_ignored_witness :
  bitsvec.get (bitsvec.set bitsvec.empty 42) (-42) = true
  /\ bitsvec.get (bitsvec.set bitsvec.empty (-42)) 42 = true.
Proof.
  apply (C7_sign_is_ignored bitsvec.empty 42); unfold object_id; lia.
Defined.

(** C8: (1) no operation clears a bit: an ID that [get] reports stays
    reported after [set] of any ID, and an ID reported by [m_nodes] or
    [m_ways] stays reported after any further entities, after the
    reconciliation and after [any_errors]; (2) after [set(id)] the capacity
    is at least [|id| + 1] and never smaller than before, after a sequence of
    marks it exceeds the index of every marked ID, and storage grows in
    steps of at least [1024 * 1024] bits: a [set] within the capacity
    leaves it as it is, one beyond it makes it [|id| + 1024 * 1024]. *)
Theorem C8_presence_set_invariants
  (b : bitsvec.t) (id y : Z) (marks : list Z)
  (h : RefCheckHandler) (input : list entity) :
  object_id id -> object_id y ->
  Forall object_id marks -> Forall entity_ok input ->
  let h' := apply input h in
  (bitsvec.get b y = true -> bitsvec.get (bitsvec.set b id) y = true)
  /\ (bitsvec.get (m_nodes h) y = true ->
      bitsvec.get (m_nodes h') y = true
      /\ bitsvec.get (m_nodes (snd (missing_relations_in_relations h'))) y
         = true
      /\ bitsvec.get (m_nodes (snd (any_errors h'))) y = true)
  /\ (bitsvec.get (m_ways h) y = true ->
      bitsvec.get (m_ways h') y = true
      /\ bitsvec.get (m_ways (snd (missing_relations_in_relations h'))) y
         = true
      /\ bitsvec.get (m_ways (snd (any_errors h'))) y = true)
  /\ Z.abs id + 1 <= bitsvec.capacity (bitsvec.set b id)
  /\ bitsvec.capacity b <= bitsvec.capacity (bitsvec.set b id)
  /\ (forall m, In m marks ->
        Z.abs m + 1 <= bitsvec.capacity (mark_all b marks))
  /\ (Z.abs id < bitsvec.capacity b ->
      bitsvec.capacity (bitsvec.set b id) = bitsvec.capacity b)
  /\ (bitsvec.capacity b <= Z.abs id ->
      bitsvec.capacity (bitsvec.set b id) = Z.abs id + 1024 * 1024
      /\ bitsvec.capacity b + 1024 * 1024
         <= bitsvec.capacity (bitsvec.set b id)).
Proof.
  intros Hid Hy Hmarks Hinput h'. subst h'.
  destruct (apply_grows input h Hinput) as [Hn Hw].
  destruct (reconcile_presence (apply input h)) as [En Ew].
  destruct (any_errors_presence (apply input h)) as [An Aw].
  destruct (capacity_set_bounds b id Hid) as [Hfit Hmono].
  pose proof (bitsvec_capacity_set b id Hid) as Hcap.
  split; [now apply grows_set |].
  split; [intros Hget; rewrite En, An; auto |].
  split; [intros Hget; rewrite Ew, Aw; auto |].
  split; [exact Hfit |].
  split; [exact Hmono |].
  split; [apply (mark_all_capacity marks b Hmarks) |].
  split.
  - intros Hin. rewrite Hcap.
    destruct (Z.leb_spec (bitsvec.capacity b) (Z.abs id)); [lia | reflexivity].
  - intros Hout. rewrite Hcap.
    destruct (Z.leb_spec (bitsvec.capacity b) (Z.abs id)); lia.
Qed.

Lemma C8_presence_set_invariants_witness :
  let b := bitsvec.set bitsvec.empty 3 in
  let h := handle_node (new_handler false true) 3 in
  let h' := apply [Way 10 [3; 4];
                   Relation 20 [ {| member_type := node; member_ref := 4 |} ]]
              h in
  bitsvec.get (bitsvec.set b (-2000000)) 3 = true
  /\ bitsvec.get (m_nodes h') 3 = true
  /\ bitsvec.capacity b = 1048579
  /\ bitsvec.capacity (bitsvec.set b 9) = 1048579
  /\ bitsvec.capacity (bitsvec.set b (-2000000)) = 3048576.
Proof.
  intros b h h'.
  assert (Hb : bitsvec.get b 3 = true) by reflexivity.
  assert (Hh : bitsvec.get (m_nodes h) 3 = true) by reflexivity.
  assert (Hinput : Forall entity_ok
            [Way 10 [3; 4];
             Relation 20 [ {| member_type := node; member_ref := 4 |} ]])
    by (repeat constructor; unfold object_id; cbn; lia).
  assert (Hmarks : Forall object_id [3])
    by (repeat constructor; unfold object_id; lia).
  assert (H3 : object_id 3) by (unfold object_id; lia).
  assert (H9 : object_id 9) by (unfold object_id; lia).
  assert (Hfar : object_id (-2000000)) by (unfold object_id; lia).
  destruct (C8_presence_set_invariants b (-2000000) 3 [3] h _
              Hfar H3 Hmarks Hinput)
    as (Hkeep & Hnodes & _ & _ & _ & _ & _ & Hgrow).
  destruct (C8_presence_set_invariants b 9 3 [3] h _ H9 H3 Hmarks Hinput)
    as (_ & _ & _ & _ & _ & _ & Hsame & _).
  split; [exact (Hkeep Hb) |].
  split; [exact (proj1 (Hnodes Hh)) |].
  split; [reflexivity |].
  split.
  - rewrite Hsame; [reflexivity | vm_compute; reflexivity].
  - destruct Hgrow as [E _]; [vm_compute; discriminate |].
    rewrite E. reflexivity.
Defined.

(** ** [any_errors] and the result of [run] *)

Lemma reconcile_counters h :
  let h' := snd (missing_relations_in_relations h) in
  m_missing_nodes_in_ways h' = m_missing_nodes_in_ways h
  /\ m_missing_nodes_in_relations h' = m_missing_nodes_in_relations h
  /\ m_missing_ways_in_relations h' = m_missing_ways_in_relations h
  /\ fst (missing_relations_in_relations h)
     = Z.of_nat (length (m_missing_relation_ids h'))
  /\ m_relations_done h' = true.
Proof.
  unfold missing_relations_in_relations.
  destruct (m_relations_done h) eqn:Hdone; cbn; auto.
Qed.

Lemma any_errors_clean h :
  m_missing_nodes_in_ways h = 0 ->
  m_missing_nodes_in_relations h = 0 ->
  m_missing_ways_in_relations h = 0 ->
  any_errors h =
    (0 <? fst (missing_relations_in_relations h),
     snd (missing_relations_in_relations h)).
Proof.
  intros E1 E2 E3. unfold any_errors. rewrite E1, E2, E3. cbn.
  now destruct (missing_relations_in_relations h).
Qed.

Lemma any_errors_dirty h :
  counter (m_missing_nodes_in_ways h) ->
  counter (m_missing_nodes_in_relations h) ->
  counter (m_missing_ways_in_relations h) ->
  ~ (m_missing_nodes_in_ways h = 0
     /\ m_missing_nodes_in_relations h = 0
     /\ m_missing_ways_in_relations h = 0) ->
  any_errors h = (true, h).
Proof.
  unfold counter, any_errors. intros C1 C2 C3 Hdirty.
  destruct (Z.ltb_spec 0 (m_missing_nodes_in_ways h)); [reflexivity |].
  destruct (Z.ltb_spec 0 (m_missing_nodes_in_relations h)); [reflexivity |].
  destruct (Z.ltb_spec 0 (m_missing_ways_in_relations h)); [reflexivity |].
  exfalso. apply Hdirty. lia.
Qed.

Lemma show_missing_relation_ids_frame h :
  let h' := show_missing_relation_ids h in
  m_missing_nodes_in_ways h' = m_missing_nodes_in_ways h
  /\ m_missing_nodes_in_relations h' = m_missing_nodes_in_relations h
  /\ m_missing_ways_in_relations h' = m_missing_ways_in_relations h.
Proof. cbn. auto. Qed.

(** C5, as stated, fails: on the stream points 1 and 2, path 10 over points
    1, 2, 3 (relation checking off), [any_errors] answers [true] from the
    first counter alone and the reconciliation is never started. *)
Lemma C5_any_errors_skips_reconciliation :
  ~ (forall input : list entity,
       let h := apply input (new_handler false false) in
       m_relations_done (snd (any_errors h)) = true).
Proof.
  intros Hclaim.
  specialize (Hclaim [Node 1; Node 2; Way 10 [1; 2; 3]]).
  vm_compute in Hclaim. discriminate Hclaim.
Qed.

(** C5, amended: [any_errors] answers [true] exactly when one of the four
    missing-reference counts is nonzero, the relation-in-relation count being
    the one [missing_relations_in_relations] returns; it runs the
    reconciliation (through that call) only when the three counters of the
    pass are all zero, and otherwise leaves the handler untouched; and [run]
    returns [true] exactly when, in the handler it ends with, the three
    counters are zero and no relation ID is listed as missing. *)
Theorem C5_any_errors_iff_some_counter_nonzero
  (h : RefCheckHandler) (show_ids check_relations : bool)
  (input : list entity) :
  counter (m_missing_nodes_in_ways h) ->
  counter (m_missing_nodes_in_relations h) ->
  counter (m_missing_ways_in_relations h) ->
  let clean := m_missing_nodes_in_ways h = 0
               /\ m_missing_nodes_in_relations h = 0
               /\ m_missing_ways_in_relations h = 0 in
  let r := run show_ids check_relations input in
  (fst (any_errors h) = true <->
     m_missing_nodes_in_ways h <> 0
     \/ m_missing_nodes_in_relations h <> 0
     \/ m_missing_ways_in_relations h <> 0
     \/ fst (missing_relations_in_relations h) <> 0)
  /\ (clean -> snd (any_errors h) = snd (missing_relations_in_relations h)
               /\ m_relations_done (snd (any_errors h)) = true)
  /\ (~ clean -> snd (any_errors h) = h)
  /\ (fst r = true <->
        m_missing_nodes_in_ways (snd r) = 0
        /\ m_missing_nodes_in_relations (snd r) = 0
        /\ m_missing_ways_in_relations (snd r) = 0
        /\ m_missing_relation_ids (snd r) = []).
Proof.
  intros C1 C2 C3 clean r.
  assert (Hfirst : forall g,
    counter (m_missing_nodes_in_ways g) ->
    counter (m_missing_nodes_in_relations g) ->
    counter (m_missing_ways_in_relations g) ->
    (m_missing_nodes_in_ways g = 0
     /\ m_missing_nodes_in_relations g = 0
     /\ m_missing_ways_in_relations g = 0
     /\ any_errors g = (0 <? fst (missing_relations_in_relations g),
                        snd (missing_relations_in_relations g)))
    \/ ((m_missing_nodes_in_ways g <> 0
         \/ m_missing_nodes_in_relations g <> 0
         \/ m_missing_ways_in_relations g <> 0)
        /\ any_errors g = (true, g))).
  { intros g G1 G2 G3.
    destruct (Z.eq_dec (m_missing_nodes_in_ways g) 0) as [E1 | N1];
      [| right; split; [tauto | apply any_errors_dirty; tauto]].
    destruct (Z.eq_dec (m_missing_nodes_in_relations g) 0) as [E2 | N2];
      [| right; split; [tauto | apply any_errors_dirty; tauto]].
    destruct (Z.eq_dec (m_missing_ways_in_relations g) 0) as [E3 | N3];
      [| right; split; [tauto | apply any_errors_dirty; tauto]].
    left. repeat split; try assumption. now apply any_errors_clean. }
  pose proof (reconcile_counters h) as (_ & _ & _ & Hn & Hdone).
  split; [| split; [| split]].
  - destruct (Hfirst h C1 C2 C3) as [(E1 & E2 & E3 & E) | [Hne E]];
      rewrite E; cbn [fst].
    + rewrite Z.ltb_lt, Hn. lia.
    + tauto.
  - intros (E1 & E2 & E3).
    rewrite any_errors_clean by assumption. cbn [snd]. auto.
  - intros Hdirty. now rewrite any_errors_dirty.
  - subst r. unfold run.
    set (h0 := apply input (new_handler show_ids check_relations)).
    set (h1 := if check_relations
               then snd (missing_relations_in_relations h0) else h0).
    set (h2 := if show_ids then show_missing_relation_ids h1 else h1).
    assert (I0 : handler_inv h0) by apply apply_inv, new_handler_inv.
    assert (K1 : m_missing_nodes_in_ways h1 = m_missing_nodes_in_ways h0
                 /\ m_missing_nodes_in_relations h1
                    = m_missing_nodes_in_relations h0
                 /\ m_missing_ways_in_relations h1
                    = m_missing_ways_in_relations h0).
    { subst h1. destruct check_relations; [| auto].
      pose proof (reconcile_counters h0). cbn zeta in *. tauto. }
    assert (K2 : m_missing_nodes_in_ways h2 = m_missing_nodes_in_ways h0
                 /\ m_missing_nodes_in_relations h2
                    = m_missing_nodes_in_relations h0
                 /\ m_missing_ways_in_relations h2
                    = m_missing_ways_in_relations h0).
    { subst h2. destruct show_ids; [| exact K1].
      pose proof (show_missing_relation_ids_frame h1). cbn zeta in *.
      intuition congruence. }
    destruct K2 as (K2a & K2b & K2c). destruct I0.
    destruct (Hfirst h2) as [(E1 & E2 & E3 & E) | [Hne E]];
      try congruence; rewrite E; cbn [fst snd negb].
    + pose proof (reconcile_counters h2) as (R1 & R2 & R3 & Rn & _).
      cbn zeta in *. rewrite R1, R2, R3, Rn.
      destruct (m_missing_relation_ids
                  (snd (missing_relations_in_relations h2))) as [| x l];
        cbn; intuition congruence.
    + split; [discriminate | tauto].
Qed.

Lemma C5_any_errors_iff_some_counter_nonzero_witness :
  let h := apply [Node 1; Way 10 [1; 2]] (new_handler false true) in
  fst (any_errors h) = true /\ snd (any_errors h) = h
  /\ fst (run false true [Node 1; Way 10 [1]]) = true.
Proof.
  intros h.
  destruct (C5_any_errors_iff_some_counter_nonzero h false true
              [Node 1; Way 10 [1]])
    as (Hiff & _ & Hdirty & Hrun);
    try (vm_compute; split; [discriminate | reflexivity]).
  split; [| split].
  - apply Hiff. left. vm_compute. discriminate.
  - apply Hdirty. vm_compute. intros (E & _). discriminate E.
  - apply Hrun. vm_compute. auto.
Defined.

(** ** Relation IDs in the ledger *)

Lemma relation_member_silent id id' h g m :
  uint32_t id = uint32_t id' ->
  silent h = silent g ->
  silent (relation_member id h m) = silent (relation_member id' g m).
Proof.
  intros Hid Hs. destruct h, g. unfold silent in Hs. cbn in Hs.
  injection Hs as -> -> -> -> -> -> -> -> -> -> -> -> -> ->.
  unfold relation_member, show. cbn. rewrite Hid.
  split_step; reflexivity.
Qed.

Lemma relation_loop_silent id id' members : forall h g,
  uint32_t id = uint32_t id' ->
  silent h = silent g ->
  silent (fold_left (relation_member id) members h)
  = silent (fold_left (relation_member id') members g).
Proof.
  induction members as [| m members IH]; intros h g Hid Hs; cbn [fold_left];
    [assumption |].
  apply IH; [assumption |]. now apply relation_member_silent.
Qed.

Lemma handle_relation_silent id id' h members :
  uint32_t id = uint32_t id' ->
  silent (handle_relation h id members)
  = silent (handle_relation h id' members).
Proof.
  intros Hid. unfold handle_relation.
  destruct h as [? ? ? ? ? ? ? ? ? ? ? ? [] ? ?]; cbn; [| reflexivity].
  apply relation_loop_silent; [assumption |]. cbn. now rewrite Hid.
Qed.

Lemma reconcile_silent h g :
  silent h = silent g ->
  fst (missing_relations_in_relations h)
  = fst (missing_relations_in_relations g)
  /\ m_missing_relation_ids (snd (missing_relations_in_relations h))
     = m_missing_relation_ids (snd (missing_relations_in_relations g)).
Proof.
  intros Hs. destruct h, g. unfold silent in Hs. cbn in Hs.
  injection Hs as -> -> -> -> -> -> -> -> -> -> -> -> -> ->.
  unfold missing_relations_in_relations. cbn.
  split_step; split; reflexivity.
Qed.

Lemma relation_loop_relation_ids id members : forall h,
  m_relation_ids (fold_left (relation_member id) members h)
  = m_relation_ids h.
Proof.
  induction members as [| m members IH]; intros h; cbn [fold_left];
    [reflexivity |].
  rewrite IH. frame_step relation_member.
Qed.

Lemma relation_loop_relation_count id members : forall h,
  m_relation_count (fold_left (relation_member id) members h)
  = m_relation_count h.
Proof.
  induction members as [| m members IH]; intros h; cbn [fold_left];
    [reflexivity |].
  rewrite IH. frame_step relation_member.
Qed.

Lemma relation_member_stores_own_id id h m :
  member_type m = relation ->
  m_member_relation_ids (relation_member id h m)
  = set_insert (uint32_t id) (m_member_relation_ids h).
Proof. intros Hm. unfold relation_member. now rewrite Hm. Qed.

(** C10: [relation] stores [uint32_t(relation.id())], the ID modulo [2^32],
    in [m_relation_ids] and, for a member of type relation, in
    [m_member_relation_ids]; every stored ID lies in [0, 2^32); two relation
    IDs congruent modulo [2^32] leave the same ledger and the same
    reconciliation result.  [m_relation_count] grows by one per relation
    whatever its ID, and the presence sets index by the whole absolute value:
    [set(x)] makes [get(y)] true only for [|y| = |x|]. *)
Theorem C10_relation_ids_modulo_2_32
  (h : RefCheckHandler) (id id' : Z) (members : list RelationMember)
  (m : RelationMember) (show_ids check_relations : bool)
  (input : list entity) (b : bitsvec.t) (x y : Z) :
  uint32_t id = uint32_t id' ->
  object_id x -> object_id y ->
  let h1 := handle_relation h id members in
  let h2 := handle_relation h id' members in
  let g := apply input (new_handler show_ids check_relations) in
  (m_check_relations h = true ->
     m_relation_ids h1 = m_relation_ids h ++ [id mod 2 ^ 32])
  /\ (member_type m = relation ->
      m_member_relation_ids (relation_member id h m)
      = set_insert (id mod 2 ^ 32) (m_member_relation_ids h))
  /\ m_relation_ids h1 = m_relation_ids h2
  /\ m_member_relation_ids h1 = m_member_relation_ids h2
  /\ fst (missing_relations_in_relations h1)
     = fst (missing_relations_in_relations h2)
  /\ m_missing_relation_ids (snd (missing_relations_in_relations h1))
     = m_missing_relation_ids (snd (missing_relations_in_relations h2))
  /\ Forall (fun r => 0 <= r < 2 ^ 32) (m_relation_ids g)
  /\ Forall (fun r => 0 <= r < 2 ^ 32) (m_member_relation_ids g)
  /\ m_relation_count h1 = incr (m_relation_count h)
  /\ m_relation_count h2 = incr (m_relation_count h)
  /\ (Z.abs y <> Z.abs x -> bitsvec.get b y = false ->
      bitsvec.get (bitsvec.set b x) y = false).
Proof.
  intros Hid Hx Hy h1 h2 g.
  pose proof (handle_relation_silent id id' h members Hid) as Hs.
  fold h1 h2 in Hs.
  destruct (reconcile_silent h1 h2 Hs) as [Hn Hl].
  assert (Hg : handler_inv g) by apply apply_inv, new_handler_inv.
  assert (Hcount : forall i,
            m_relation_count (handle_relation h i members)
            = incr (m_relation_count h)).
  { intros i. unfold handle_relation.
    destruct h as [? ? ? ? ? ? ? ? ? ? ? ? [] ? ?]; cbn; [| reflexivity].
    now rewrite relation_loop_relation_count. }
  repeat split.
  - intros Hon. subst h1. unfold handle_relation.
    destruct h; cbn in *. rewrite Hon.
    now rewrite relation_loop_relation_ids.
  - apply relation_member_stores_own_id.
  - exact (f_equal m_relation_ids Hs).
  - exact (f_equal m_member_relation_ids Hs).
  - exact Hn.
  - exact Hl.
  - apply Hg.
  - destruct Hg as [_ Hrange Hincl _ _ _ _ _].
    rewrite Forall_forall in *. auto.
  - apply Hcount.
  - apply Hcount.
  - intros Hne Hb. rewrite bitsvec_get_set by assumption. rewrite Hb.
    apply orb_false_iff. split; [| reflexivity]. now apply Z.eqb_neq.
Qed.

Lemma C10_relation_ids_modulo_2_32_witness :
  let m := {| member_type := relation; member_ref := 9 |} in
  let h := new_handler false true in
  m_relation_ids (handle_relation h 7 [m])
  = m_relation_ids (handle_relation h 4294967303 [m])
  /\ m_member_relation_ids (handle_relation h 4294967303 [m]) = [7]
  /\ bitsvec.get (bitsvec.set bitsvec.empty 7) 4294967303 = false.
Proof.
  intros m h.
  destruct (C10_relation_ids_modulo_2_32 h 7 4294967303 [m] m false true []
              bitsvec.empty 7 4294967303)
    as (_ & _ & Hobs & Href & _ & _ & _ & _ & _ & _ & Hfull);
    try (unfold object_id; lia); [reflexivity |].
  split; [exact Hobs |].
  split; [rewrite <- Href; reflexivity |].
  apply Hfull; [lia | reflexivity].
Defined.

(** ** The relation-to-relation check on the code as written *)

(** Whatever the input, the reconciliation finds nothing: the ID that
    [relation] inserts into [m_member_relation_ids] is the one it has just
    appended to [m_relation_ids]. *)
Lemma reconciliation_finds_nothing (show_ids check_relations : bool)
  (input : list entity) :
  let h := apply input (new_handler show_ids check_relations) in
  missing_relations_in_relations h
  = (0, with_reconciled h (std_sort (m_relation_ids h)) []).
Proof.
  intros h.
  assert (Hh : handler_inv h) by apply apply_inv, new_handler_inv.
  destruct Hh as [Hset _ Hincl Hopen Hnil _ _ _].
  rewrite (reconcile_open h Hopen Hnil Hset).
  assert (E : filter (fun id => negb (mem (m_relation_ids h) id))
                (m_member_relation_ids h) = []).
  { apply filter_none. intros x Hx. apply negb_false_iff.
    apply mem_In. now apply Hincl. }
  now rewrite E.
Qed.

(** C1: on the stream point 1; relation 100 with members (point 1),
    (point 2), (relation 200); relation 300 without members, with relation
    checking on, the code leaves [m_member_relation_ids = {100}] where the
    claim has [{200}], and [missing_relations_in_relations] lists no ID
    where the claim has [[200]].  [m_relation_ids = [100; 300]] and
    [m_missing_nodes_in_relations = 1] are as claimed. *)
Theorem C1_scenario_on_the_code :
  let h := apply scenario_C1 (new_handler false true) in
  m_member_relation_ids h = [100]
  /\ m_relation_ids h = [100; 300]
  /\ m_missing_nodes_in_relations h = 1
  /\ fst (missing_relations_in_relations h) = 0
  /\ m_missing_relation_ids (snd (missing_relations_in_relations h)) = [].
Proof. vm_compute. repeat split. Qed.

(** ** Distinct missing IDs *)

Lemma new_ids_In seen l z :
  In z (new_ids seen l) <-> In z l /\ seen z = false.
Proof.
  unfold new_ids. rewrite nodup_In, filter_In, negb_true_iff. reflexivity.
Qed.

Lemma new_ids_NoDup seen l : NoDup (new_ids seen l).
Proof. apply NoDup_nodup. Qed.

Lemma new_ids_ext seen seen' l :
  (forall z, In z l -> seen z = seen' z) -> new_ids seen l = new_ids seen' l.
Proof.
  intros H. unfold new_ids. f_equal. apply filter_ext_in.
  intros z Hz. now rewrite H.
Qed.

Lemma new_ids_seen seen a l :
  seen a = true -> new_ids seen (a :: l) = new_ids seen l.
Proof. intros Ha. unfold new_ids. cbn [filter]. now rewrite Ha. Qed.

Lemma new_ids_fresh seen a l :
  seen a = false ->
  length (new_ids seen (a :: l))
  = S (length (new_ids (fun z => (z =? a) || seen z) l)).
Proof.
  intros Ha.
  change (length (new_ids seen (a :: l))
          = length (a :: new_ids (fun z => (z =? a) || seen z) l)).
  apply Permutation_length, NoDup_Permutation.
  - apply new_ids_NoDup.
  - constructor; [| apply new_ids_NoDup].
    rewrite new_ids_In, Z.eqb_refl. cbn. intros [_ H]. discriminate H.
  - intros z. cbn [In]. rewrite !new_ids_In. cbn [In].
    destruct (Z.eqb_spec z a) as [-> | Hne]; cbn [orb].
    + intuition (auto; discriminate).
    + intuition congruence.
Qed.

Lemma NoDup_range_length (l : list Z) (n : Z) :
  0 <= n -> NoDup l -> Forall (fun z => 0 <= z < n) l ->
  Z.of_nat (length l) <= n.
Proof.
  intros Hn Hnd Hrange.
  assert (Hle : (length l <= length (map Z.of_nat (seq 0 (Z.to_nat n))))%nat).
  { apply NoDup_incl_length; [assumption |].
    intros z Hz. rewrite Forall_forall in Hrange. specialize (Hrange z Hz).
    apply in_map_iff. exists (Z.to_nat z). split; [lia |].
    apply in_seq. lia. }
  rewrite length_map, length_seq in Hle. lia.
Qed.

(** ** Members of type node or way *)

Lemma abs_in_range_indexable z : abs_in_range z -> indexable z.
Proof. unfold abs_in_range, indexable. lia. Qed.

Lemma member_ok_abs_in_range m :
  member_ok m -> abs_in_range (Z.abs (member_ref m)).
Proof. unfold member_ok, object_id, abs_in_range. lia. Qed.

Lemma refs_of_cons k m ms :
  refs_of k (m :: ms) = refs_of k [m] ++ refs_of k ms.
Proof.
  unfold refs_of. cbn [filter].
  destruct (item_type_eqb (member_type m) k); reflexivity.
Qed.

Lemma refs_of_app k ms ms' :
  refs_of k (ms ++ ms') = refs_of k ms ++ refs_of k ms'.
Proof. unfold refs_of. now rewrite filter_app, map_app. Qed.

Lemma refs_of_range k ms :
  Forall member_ok ms -> Forall abs_in_range (map Z.abs (refs_of k ms)).
Proof.
  intros Hms. rewrite Forall_forall in *. intros z Hz.
  apply in_map_iff in Hz as (r & <- & Hr).
  unfold refs_of in Hr. apply in_map_iff in Hr as (m & <- & Hm).
  apply filter_In in Hm as [Hm _]. now apply member_ok_abs_in_range, Hms.
Qed.

(** What one loop iteration does to the presence set and the counter of
    type [k]. *)
Lemma relation_member_kind k id h m :
  k = node \/ k = way ->
  let miss := item_type_eqb (member_type m) k
              && negb (bitsvec.get (presence k h) (member_ref m)) in
  presence k (relation_member id h m)
  = (if miss then bitsvec.set (presence k h) (member_ref m)
     else presence k h)
  /\ missing_in_relations k (relation_member id h m)
     = (if miss then incr (missing_in_relations k h)
        else missing_in_relations k h).
Proof.
  intros [-> | ->]; unfold relation_member, presence, missing_in_relations;
    destruct (member_type m); cbn [item_type_eqb andb];
    split_step; autorewrite with frame; split; reflexivity.
Qed.

Lemma relation_member_potential k id h m rest :
  k = node \/ k = way ->
  member_ok m ->
  Forall abs_in_range rest ->
  let h' := relation_member id h m in
  uint64_t (missing_in_relations k h'
            + Z.of_nat (length (new_ids (bitsvec.get (presence k h')) rest)))
  = uint64_t (missing_in_relations k h
              + Z.of_nat (length (new_ids (bitsvec.get (presence k h))
                                    (map Z.abs (refs_of k [m]) ++ rest)))).
Proof.
  intros Hk Hm Hrest h'. subst h'.
  destruct (relation_member_kind k id h m Hk) as [Ep Ec]. cbn zeta in *.
  rewrite Ep, Ec. unfold refs_of. cbn [filter].
  destruct (item_type_eqb (member_type m) k); cbn [andb map app];
    [| reflexivity].
  destruct (bitsvec.get (presence k h) (member_ref m)) eqn:Hget; cbn [negb].
  - rewrite new_ids_seen; [reflexivity |].
    rewrite <- Hget. apply bitsvec_get_same_abs, Z.abs_idemp.
  - rewrite new_ids_fresh.
    + rewrite uint64_t_incr_add. f_equal. f_equal.
      rewrite Nat2Z.inj_succ. unfold Z.succ. rewrite Z.add_comm.
      f_equal. f_equal. f_equal. apply new_ids_ext.
      intros z Hz. rewrite Forall_forall in Hrest. specialize (Hrest z Hz).
      rewrite bitsvec_get_set_index;
        [| now apply object_id_indexable | now apply abs_in_range_indexable].
      f_equal. unfold abs_in_range in Hrest. f_equal. lia.
    + rewrite <- Hget. apply bitsvec_get_same_abs, Z.abs_idemp.
Qed.

Lemma relation_loop_potential k id members : forall h rest,
  k = node \/ k = way ->
  Forall member_ok members ->
  Forall abs_in_range rest ->
  let h' := fold_left (relation_member id) members h in
  uint64_t (missing_in_relations k h'
            + Z.of_nat (length (new_ids (bitsvec.get (presence k h')) rest)))
  = uint64_t (missing_in_relations k h
              + Z.of_nat (length (new_ids (bitsvec.get (presence k h))
                                    (map Z.abs (refs_of k members) ++ rest)))).
Proof.
  induction members as [| m members IH]; intros h rest Hk Hms Hrest;
    cbn [fold_left]; [reflexivity |].
  inversion Hms as [| ? ? Hm Hms']; subst.
  cbn zeta in *. rewrite IH by assumption.
  rewrite (refs_of_cons k m members), map_app, <- app_assoc.
  apply relation_member_potential; try assumption.
  apply Forall_app. split; [now apply refs_of_range | assumption].
Qed.

Lemma relation_member_get k id h m y :
  k = node \/ k = way ->
  member_ok m -> object_id y ->
  bitsvec.get (presence k (relation_member id h m)) y
  = marked (refs_of k [m]) y || bitsvec.get (presence k h) y.
Proof.
  intros Hk Hm Hy.
  destruct (relation_member_kind k id h m Hk) as [Ep _]. cbn zeta in *.
  rewrite Ep. unfold refs_of, marked. cbn [filter].
  destruct (item_type_eqb (member_type m) k); cbn [andb map existsb orb];
    [| reflexivity].
  rewrite orb_false_r.
  destruct (bitsvec.get (presence k h) (member_ref m)) eqn:Hget; cbn [negb].
  - destruct (Z.eqb_spec (Z.abs y) (Z.abs (member_ref m))) as [E | _];
      [| reflexivity].
    cbn [orb]. rewrite <- Hget. now apply bitsvec_get_same_abs.
  - now apply bitsvec_get_set.
Qed.

Lemma marked_app l l' y : marked (l ++ l') y = marked l y || marked l' y.
Proof. unfold marked. apply existsb_app. Qed.

Lemma relation_loop_get k id members : forall h y,
  k = node \/ k = way ->
  Forall member_ok members -> object_id y ->
  bitsvec.get (presence k (fold_left (relation_member id) members h)) y
  = marked (refs_of k members) y || bitsvec.get (presence k h) y.
Proof.
  induction members as [| m members IH]; intros h y Hk Hms Hy;
    cbn [fold_left]; [reflexivity |].
  inversion Hms as [| ? ? Hm Hms']; subst.
  rewrite IH, relation_member_get by assumption.
  rewrite (refs_of_cons k m members), marked_app.
  destruct (marked (refs_of k [m]) y), (marked (refs_of k members) y);
    reflexivity.
Qed.

(** ** The three phases of the stream *)

Lemma fold_left_frame {A B C : Type} (f : A -> B -> A) (proj : A -> C) :
  (forall a b, proj (f a b) = proj a) ->
  forall l a, proj (fold_left f l a) = proj a.
Proof.
  intros Hstep. induction l as [| b l IH]; intros a; cbn [fold_left];
    [reflexivity |].
  now rewrite IH, Hstep.
Qed.

Lemma apply_app input input' h :
  apply (input ++ input') h = apply input' (apply input h).
Proof. unfold apply. apply fold_left_app. Qed.

Lemma handle_relation_on h id members :
  m_check_relations h = true ->
  handle_relation h id members
  = fold_left (relation_member id) members
      (with_relation_ids (with_relation_count h (incr (m_relation_count h)))
         (m_relation_ids h ++ [uint32_t id])).
Proof.
  intros Hon. unfold handle_relation. destruct h; cbn in *. now rewrite Hon.
Qed.

Lemma handle_check_relations h e :
  m_check_relations (handle h e) = m_check_relations h.
Proof.
  destruct e as [id | id nodes | id members]; cbn [handle].
  - reflexivity.
  - unfold handle_way.
    rewrite (fold_left_frame (way_node_ref id) m_check_relations)
      by (intros; frame_step way_node_ref).
    destruct h as [? ? ? ? ? ? ? ? ? ? ? ? [] ? ?]; reflexivity.
  - unfold handle_relation.
    destruct h as [? ? ? ? ? ? ? ? ? ? ? ? [] ? ?]; cbn; [| reflexivity].
    now rewrite (fold_left_frame (relation_member id) m_check_relations)
      by (intros; frame_step relation_member).
Qed.

Lemma apply_check_relations input : forall h,
  m_check_relations (apply input h) = m_check_relations h.
Proof.
  unfold apply. induction input as [| e input IH]; intros h;
    cbn [fold_left]; [reflexivity |].
  now rewrite IH, handle_check_relations.
Qed.

Lemma points_phase k points : forall h,
  k = node \/ k = way ->
  let h' := apply (map Node points) h in
  presence k h' = mark_all (presence k h) (streamed k points [])
  /\ missing_in_relations k h' = missing_in_relations k h.
Proof.
  unfold apply, mark_all.
  induction points as [| p points IH]; intros h Hk; cbn [map fold_left].
  - destruct Hk as [-> | ->]; split; reflexivity.
  - destruct (IH (handle (h) (Node p)) Hk) as [Ep Ec]. cbn zeta in *.
    rewrite Ep, Ec. destruct Hk as [-> | ->]; split; reflexivity.
Qed.

Lemma handle_way_kind k h id nodes :
  k = node \/ k = way ->
  m_check_relations h = true ->
  presence k (handle_way h id nodes)
  = mark_all (presence k h) (streamed k [] [(id, nodes)])
  /\ missing_in_relations k (handle_way h id nodes)
     = missing_in_relations k h.
Proof.
  intros Hk Hon. unfold handle_way.
  destruct Hk as [-> | ->]; unfold presence, missing_in_relations.
  - rewrite (fold_left_frame (way_node_ref id) m_nodes)
      by (intros; frame_step way_node_ref).
    rewrite (fold_left_frame (way_node_ref id) m_missing_nodes_in_relations)
      by (intros; frame_step way_node_ref).
    destruct h; cbn in *. rewrite Hon. split; reflexivity.
  - rewrite (fold_left_frame (way_node_ref id) m_ways)
      by (intros; frame_step way_node_ref).
    rewrite (fold_left_frame (way_node_ref id) m_missing_ways_in_relations)
      by (intros; frame_step way_node_ref).
    destruct h; cbn in *. rewrite Hon. split; reflexivity.
Qed.

Lemma ways_phase k ways : forall h,
  k = node \/ k = way ->
  m_check_relations h = true ->
  let h' := apply (map (fun w => Way (fst w) (snd w)) ways) h in
  presence k h' = mark_all (presence k h) (streamed k [] ways)
  /\ missing_in_relations k h' = missing_in_relations k h.
Proof.
  unfold apply.
  induction ways as [| [id nodes] ways IH]; intros h Hk Hon;
    cbn [map fold_left fst snd handle].
  - destruct Hk as [-> | ->]; split; reflexivity.
  - destruct (handle_way_kind k h id nodes Hk Hon) as [Ep Ec].
    destruct (IH (handle_way h id nodes) Hk) as [Ep' Ec'].
    { change (m_check_relations (handle h (Way id nodes)) = true).
      now rewrite handle_check_relations. }
    cbn zeta in *. rewrite Ep', Ec', Ep, Ec.
    destruct Hk as [-> | ->]; split; reflexivity.
Qed.

Lemma relations_phase_potential k relations : forall h rest,
  k = node \/ k = way ->
  m_check_relations h = true ->
  Forall member_ok (all_members relations) ->
  Forall abs_in_range rest ->
  let h' := apply (map (fun r => Relation (fst r) (snd r)) relations) h in
  uint64_t (missing_in_relations k h'
            + Z.of_nat (length (new_ids (bitsvec.get (presence k h')) rest)))
  = uint64_t (missing_in_relations k h
              + Z.of_nat
                  (length (new_ids (bitsvec.get (presence k h))
                             (map Z.abs (refs_of k (all_members relations))
                              ++ rest)))).
Proof.
  unfold apply, all_members.
  induction relations as [| [id members] relations IH];
    intros h rest Hk Hon Hms Hrest;
    cbn [map fold_left fst snd handle flat_map]; [reflexivity |].
  apply Forall_app in Hms as [Hms Hms'].
  cbn zeta in *. rewrite IH; try assumption.
  - rewrite refs_of_app, map_app, <- app_assoc.
    rewrite handle_relation_on by assumption.
    rewrite relation_loop_potential; try assumption.
    + destruct Hk as [-> | ->]; reflexivity.
    + apply Forall_app. split; [now apply refs_of_range | assumption].
  - change (m_check_relations (handle h (Relation id members)) = true).
    now rewrite handle_check_relations.
Qed.

Lemma relations_phase_get k relations : forall h y,
  k = node \/ k = way ->
  m_check_relations h = true ->
  Forall member_ok (all_members relations) ->
  object_id y ->
  let h' := apply (map (fun r => Relation (fst r) (snd r)) relations) h in
  bitsvec.get (presence k h') y
  = marked (refs_of k (all_members relations)) y
    || bitsvec.get (presence k h) y.
Proof.
  unfold apply, all_members.
  induction relations as [| [id members] relations IH];
    intros h y Hk Hon Hms Hy;
    cbn [map fold_left fst snd handle flat_map]; [reflexivity |].
  apply Forall_app in Hms as [Hms Hms'].
  cbn zeta in *. rewrite IH; try assumption.
  - rewrite refs_of_app, marked_app.
    rewrite handle_relation_on by assumption.
    rewrite relation_loop_get by assumption.
    destruct Hk as [-> | ->]; cbn [presence];
      destruct (marked (refs_of _ members) y),
               (marked (refs_of _ (flat_map snd relations)) y); reflexivity.
  - change (m_check_relations (handle h (Relation id members)) = true).
    now rewrite handle_check_relations.
Qed.

Lemma stream_ok points ways relations :
  Forall entity_ok (stream points ways relations) ->
  Forall object_id points
  /\ Forall object_id (map fst ways)
  /\ Forall member_ok (all_members relations).
Proof.
  unfold stream, all_members. intros Hok.
  apply Forall_app in Hok as [Hp Hok]. apply Forall_app in Hok as [Hw Hr].
  rewrite Forall_forall in Hp, Hw, Hr.
  split; [| split]; apply Forall_forall.
  - intros p Hin. exact (Hp (Node p) (in_map Node _ _ Hin)).
  - intros id Hin. apply in_map_iff in Hin as ([id' nodes] & <- & Hin).
    exact (proj1 (Hw _ (in_map (fun w => Way (fst w) (snd w)) _ _ Hin))).
  - intros m Hin. apply in_flat_map in Hin as ([id members] & Hin & Hm).
    pose proof (Hr _ (in_map (fun r => Relation (fst r) (snd r)) _ _ Hin))
      as [_ Hms].
    rewrite Forall_forall in Hms. now apply Hms.
Qed.

Lemma streamed_split k points ways b :
  k = node \/ k = way ->
  mark_all (mark_all b (streamed k points [])) (streamed k [] ways)
  = mark_all b (streamed k points ways).
Proof. intros [-> | ->]; reflexivity. Qed.

Lemma streamed_ok k points ways :
  k = node \/ k = way ->
  Forall object_id points -> Forall object_id (map fst ways) ->
  Forall object_id (streamed k points ways).
Proof. intros [-> | ->] Hp Hw; assumption. Qed.

(** ** Missing relation members *)

(** C2, as stated, fails: on the stream point -5; relation 1 with the single
    member (point 5), with relation checking on, point 5 was never streamed
    and is referenced by a relation, yet
    [m_missing_nodes_in_relations] stays 0. *)
Lemma C2_opposite_sign_point_hides_missing_member :
  ~ (forall (points : list Z) (relations : list (Z * list RelationMember))
            (x : Z),
       Forall entity_ok (stream points [] relations) ->
       ~ In x points ->
       In x (refs_of node (all_members relations)) ->
       (forall r, In r (refs_of node (all_members relations)) -> r = x) ->
       m_missing_nodes_in_relations
         (apply (stream points [] relations) (new_handler false true)) = 1).
Proof.
  intros Hclaim.
  specialize (Hclaim [-5]
    [(1, [ {| member_type := node; member_ref := 5 |} ])] 5).
  assert (Hzero : m_missing_nodes_in_relations
            (apply (stream [-5] []
                      [(1, [ {| member_type := node; member_ref := 5 |} ])])
               (new_handler false true)) = 0) by reflexivity.
  rewrite Hclaim in Hzero; [discriminate Hzero | | | |].
  - repeat constructor; unfold object_id; cbn; lia.
  - intros [H | []]. discriminate H.
  - left. reflexivity.
  - intros r [<- | []]. reflexivity.
Qed.

(** C2, amended: with relation checking on and the stream in the order
    points, paths, relations, the counter of missing members of type [k]
    (points against [m_nodes], paths against [m_ways]) ends as the number of
    distinct absolute values among the referenced IDs of that type that were
    not streamed under either sign.  An ID [x] such that neither [x] nor
    [-x] was streamed and that some relation references (as [x] or [-x]) is
    in that list exactly once, and is present in the set at the end.  In the
    loop, the first member that references it adds one to the counter and
    marks it; every later one leaves the handler untouched. *)
Theorem C2_missing_member_counted_once
  (show_ids : bool) (points : list Z) (ways : list (Z * list Z))
  (relations : list (Z * list RelationMember)) (k : item_type) (x : Z) :
  k = node \/ k = way ->
  Forall entity_ok (stream points ways relations) ->
  object_id x ->
  (forall id, In id (streamed k points ways) -> Z.abs id <> Z.abs x) ->
  (exists r, In r (refs_of k (all_members relations))
             /\ Z.abs r = Z.abs x) ->
  let h := apply (stream points ways relations) (new_handler show_ids true) in
  let missing :=
    new_ids (marked (streamed k points ways))
      (map Z.abs (refs_of k (all_members relations))) in
  missing_in_relations k h = Z.of_nat (length missing)
  /\ count_occ Z.eq_dec missing (Z.abs x) = 1%nat
  /\ bitsvec.get (presence k h) x = true
  /\ (forall g id m,
        member_ok m -> member_type m = k ->
        Z.abs (member_ref m) = Z.abs x ->
        (bitsvec.get (presence k g) x = false ->
           missing_in_relations k (relation_member id g m)
           = incr (missing_in_relations k g)
           /\ bitsvec.get (presence k (relation_member id g m)) x = true)
        /\ (bitsvec.get (presence k g) x = true ->
            relation_member id g m = g)).
Proof.
  intros Hk Hok Hx Hfresh (r & Hr & Habs) h missing.
  destruct (stream_ok _ _ _ Hok) as (Hp & Hw & Hms).
  pose proof (streamed_ok k points ways Hk Hp Hw) as Hs.
  set (h0 := new_handler show_ids true).
  set (hp := apply (map Node points) h0).
  set (hw := apply (map (fun w => Way (fst w) (snd w)) ways) hp).
  assert (Eh : h = apply (map (fun r => Relation (fst r) (snd r)) relations)
                     hw).
  { subst h hw hp. unfold stream. now rewrite !apply_app. }
  assert (Hon : m_check_relations hw = true).
  { subst hw hp. now rewrite !apply_check_relations. }
  assert (Ehw : presence k hw = mark_all bitsvec.empty (streamed k points ways)
                /\ missing_in_relations k hw = 0).
  { destruct (points_phase k points h0 Hk) as [Ep Ec].
    destruct (ways_phase k ways hp Hk) as [Ep' Ec'].
    { subst hp. now rewrite apply_check_relations. }
    cbn zeta in *. fold hp in Ep, Ec. fold hw in Ep', Ec'.
    rewrite Ep', Ec', Ep, Ec, streamed_split by assumption.
    destruct Hk as [-> | ->]; split; reflexivity. }
  destruct Ehw as [Ep Ec].
  assert (Hinv : handler_inv h)
    by (subst h; apply apply_inv, new_handler_inv).
  assert (Hrange : Forall abs_in_range
                     (map Z.abs (refs_of k (all_members relations))))
    by now apply refs_of_range.
  assert (Emissing :
    new_ids (bitsvec.get (presence k hw))
      (map Z.abs (refs_of k (all_members relations))) = missing).
  { subst missing. apply new_ids_ext. intros z Hz. rewrite Ep.
    rewrite Forall_forall in Hrange.
    rewrite mark_all_get_index;
      [| assumption | apply abs_in_range_indexable; auto].
    rewrite bitsvec_get_empty. apply orb_false_r. }
  assert (Hmarked : marked (streamed k points ways) (Z.abs x) = false).
  { destruct (marked (streamed k points ways) (Z.abs x)) eqn:E;
      [| reflexivity].
    apply marked_spec in E as (m & Hm & E).
    rewrite Z.abs_idemp in E. now apply Hfresh in Hm. }
  split; [| split; [| split]].
  - pose proof (relations_phase_potential k relations hw [] Hk Hon Hms
                  (Forall_nil _)) as Hpot.
    cbn zeta in Hpot. rewrite <- Eh, app_nil_r, Emissing, Ec in Hpot.
    cbn [new_ids filter nodup length Z.of_nat] in Hpot.
    rewrite Z.add_0_r, Z.add_0_l in Hpot.
    assert (Hc : counter (missing_in_relations k h))
      by (destruct Hinv, Hk as [-> | ->]; assumption).
    rewrite (uint64_t_small _ Hc) in Hpot. rewrite Hpot.
    apply uint64_t_small. split; [lia |].
    assert (Z.of_nat (length missing) <= 2 ^ 63 + 1); [| lia].
    apply NoDup_range_length; [lia | apply new_ids_NoDup |].
    apply Forall_forall. intros z Hz. apply new_ids_In in Hz as [Hz _].
    rewrite Forall_forall in Hrange. specialize (Hrange z Hz).
    unfold abs_in_range in Hrange. lia.
  - apply NoDup_count_occ'; [apply new_ids_NoDup |].
    apply new_ids_In. split; [| assumption].
    rewrite <- Habs. now apply in_map.
  - rewrite Eh, relations_phase_get by assumption.
    replace (marked (refs_of k (all_members relations)) x) with true;
      [reflexivity |].
    symmetry. apply marked_spec. eauto.
  - intros g id m Hm Htype Href.
    destruct (relation_member_kind k id g m Hk) as [Eg Ecount].
    cbn zeta in *.
    rewrite (bitsvec_get_same_abs (presence k g) _ _ Href) in Eg, Ecount.
    assert (Hsame : item_type_eqb (member_type m) k = true)
      by (rewrite Htype; destruct Hk as [-> | ->]; reflexivity).
    rewrite Hsame in Eg, Ecount. cbn [andb] in Eg, Ecount.
    split.
    + intros Hget. rewrite Hget in Eg, Ecount. cbn [negb] in Eg, Ecount.
      split; [exact Ecount |].
      rewrite Eg, bitsvec_get_set by assumption.
      rewrite Href, Z.eqb_refl. reflexivity.
    + intros Hget. unfold relation_member.
      destruct Hk as [-> | ->]; rewrite Htype; cbn [presence] in Hget;
        rewrite (bitsvec_get_same_abs _ _ _ Href), Hget; reflexivity.
Qed.

Lemma C2_missing_member_counted_once_witness :
  let m5 := {| member_type := node; member_ref := 5 |} in
  let m5' := {| member_type := node; member_ref := -5 |} in
  let h := apply (stream [1] [] [(100, [m5; m5']); (300, [m5])])
             (new_handler false true) in
  m_missing_nodes_in_relations h = 1
  /\ bitsvec.get (m_nodes h) 5 = true.
Proof.
  intros m5 m5' h.
  destruct (C2_missing_member_counted_once false [1] []
              [(100, [m5; m5']); (300, [m5])] node 5)
    as (Hcount & _ & Hget & _).
  - left. reflexivity.
  - repeat constructor; unfold object_id; cbn; lia.
  - unfold object_id. lia.
  - intros id [<- | []]. discriminate.
  - exists 5. split; [left |]; reflexivity.
  - split; [| exact Hget].
    cbn [missing_in_relations] in Hcount. unfold h. rewrite Hcount.
    reflexivity.
Defined.

(** * Whole runs *)

(** ** Entity counts *)

Lemma uint64_t_idem (z : Z) : uint64_t (uint64_t z) = uint64_t z.
Proof. unfold uint64_t. apply Z.mod_mod. lia. Qed.

Lemma incr_uint64_t (z : Z) : incr (uint64_t z) = uint64_t (z + 1).
Proof. unfold incr, uint64_t. now rewrite Zplus_mod_idemp_l. Qed.

Lemma apply_tally (proj : RefCheckHandler -> Z) (p : entity -> bool) :
  (forall h e, proj (handle h e) = if p e then incr (proj h) else proj h) ->
  forall input h n,
    proj h = uint64_t n ->
    proj (apply input h)
    = uint64_t (n + Z.of_nat (length (filter p input))).
Proof.
  intros Hstep. unfold apply.
  induction input as [| e input IH]; intros h n Hn; cbn [fold_left filter].
  - cbn [length Z.of_nat]. now rewrite Z.add_0_r.
  - specialize (Hstep h e). destruct (p e).
    + rewrite (IH _ (n + 1)) by (now rewrite Hstep, Hn, incr_uint64_t).
      f_equal. cbn [length]. lia.
    + apply IH. now rewrite Hstep.
Qed.

Lemma show_node_count h l : m_node_count (show h l) = m_node_count h.
Proof. frame_show. Qed.
Lemma show_way_count h l : m_way_count (show h l) = m_way_count h.
Proof. frame_show. Qed.

#[local] Hint Rewrite show_node_count show_way_count : frame.

Lemma handle_node_count h e :
  m_node_count (handle h e)
  = if is_node e then incr (m_node_count h) else m_node_count h.
Proof.
  destruct e as [id | id nodes | id members]; cbn [handle is_node].
  - reflexivity.
  - unfold handle_way.
    rewrite (fold_left_frame (way_node_ref id) m_node_count)
      by (intros; frame_step way_node_ref).
    destruct h as [? ? ? ? ? ? ? ? ? ? ? ? [] ? ?]; reflexivity.
  - unfold handle_relation.
    destruct h as [? ? ? ? ? ? ? ? ? ? ? ? [] ? ?]; cbn; [| reflexivity].
    now rewrite (fold_left_frame (relation_member id) m_node_count)
      by (intros; frame_step relation_member).
Qed.

Lemma handle_way_count h e :
  m_way_count (handle h e)
  = if is_way e then incr (m_way_count h) else m_way_count h.
Proof.
  destruct e as [id | id nodes | id members]; cbn [handle is_way].
  - reflexivity.
  - unfold handle_way.
    rewrite (fold_left_frame (way_node_ref id) m_way_count)
      by (intros; frame_step way_node_ref).
    destruct h as [? ? ? ? ? ? ? ? ? ? ? ? [] ? ?]; reflexivity.
  - unfold handle_relation.
    destruct h as [? ? ? ? ? ? ? ? ? ? ? ? [] ? ?]; cbn; [| reflexivity].
    now rewrite (fold_left_frame (relation_member id) m_way_count)
      by (intros; frame_step relation_member).
Qed.

Lemma handle_relation_count h e :
  m_relation_count (handle h e)
  = if is_relation e then incr (m_relation_count h) else m_relation_count h.
Proof.
  destruct e as [id | id nodes | id members]; cbn [handle is_relation].
  - reflexivity.
  - unfold handle_way.
    rewrite (fold_left_frame (way_node_ref id) m_relation_count)
      by (intros; frame_step way_node_ref).
    destruct h as [? ? ? ? ? ? ? ? ? ? ? ? [] ? ?]; reflexivity.
  - unfold handle_relation.
    destruct h as [? ? ? ? ? ? ? ? ? ? ? ? [] ? ?]; cbn; [| reflexivity].
    now rewrite (fold_left_frame (relation_member id) m_relation_count)
      by (intros; frame_step relation_member).
Qed.

(** X1: whatever the order of the input and whatever the flags, after
    [osmium::apply] the three entity counts are the numbers of nodes, ways
    and relations of the input (as [uint64_t]). *)
Theorem entity_counts_tally_the_input
  (show_ids check_relations : bool) (input : list entity) :
  let h := apply input (new_handler show_ids check_relations) in
  m_node_count h = uint64_t (Z.of_nat (length (filter is_node input)))
  /\ m_way_count h = uint64_t (Z.of_nat (length (filter is_way input)))
  /\ m_relation_count h
     = uint64_t (Z.of_nat (length (filter is_relation input))).
Proof.
  intros h. subst h. repeat split.
  - apply (apply_tally m_node_count is_node handle_node_count input _ 0).
    reflexivity.
  - apply (apply_tally m_way_count is_way handle_way_count input _ 0).
    reflexivity.
  - apply (apply_tally m_relation_count is_relation handle_relation_count
             input _ 0).
    reflexivity.
Qed.

(** ** The result of [run] *)

Lemma reconcile_nothing h :
  handler_inv h ->
  missing_relations_in_relations h
  = (0, with_reconciled h (std_sort (m_relation_ids h)) []).
Proof.
  intros [Hset _ Hincl Hopen Hnil _ _ _].
  rewrite (reconcile_open h Hopen Hnil Hset).
  assert (E : filter (fun id => negb (mem (m_relation_ids h) id))
                (m_member_relation_ids h) = []).
  { apply filter_none. intros x Hx. apply negb_false_iff.
    apply mem_In. now apply Hincl. }
  now rewrite E.
Qed.

Lemma show_missing_nothing h :
  m_missing_relation_ids h = [] -> show_missing_relation_ids h = h.
Proof.
  intros Hnil. destruct h. cbn in Hnil. subst.
  unfold show_missing_relation_ids. cbn. now rewrite app_nil_r.
Qed.

(** The handler that [run] ends with, and its result, in terms of the
    handler that [osmium::apply] leaves. *)
Lemma run_outcome (show_ids check_relations : bool) (input : list entity) :
  let h := apply input (new_handler show_ids check_relations) in
  let r := run show_ids check_relations input in
  (snd r = h
   \/ snd r = with_reconciled h (std_sort (m_relation_ids h)) [])
  /\ (fst r = true <->
      m_missing_nodes_in_ways h = 0
      /\ m_missing_nodes_in_relations h = 0
      /\ m_missing_ways_in_relations h = 0).
Proof.
  intros h r.
  assert (Hinv : handler_inv h) by apply apply_inv, new_handler_inv.
  pose proof (reconcile_nothing h Hinv) as Hrec.
  pose proof (inv_missing h Hinv) as Hnil.
  pose proof (inv_nw h Hinv) as C1.
  pose proof (inv_nr h Hinv) as C2.
  pose proof (inv_wr h Hinv) as C3.
  unfold counter in C1, C2, C3.
  subst r. unfold run. fold h.
  set (h1 := if check_relations
             then snd (missing_relations_in_relations h) else h).
  assert (Hh1 : (h1 = h /\ check_relations = false)
                \/ (h1 = with_reconciled h (std_sort (m_relation_ids h)) []
                    /\ check_relations = true)).
  { subst h1. destruct check_relations; [right | left]; split;
      try reflexivity. now rewrite Hrec. }
  assert (Hh2 : (if show_ids then show_missing_relation_ids h1 else h1) = h1).
  { destruct show_ids; [| reflexivity]. apply show_missing_nothing.
    destruct Hh1 as [[-> _] | [-> _]]; [assumption | reflexivity]. }
  rewrite Hh2.
  assert (Hmrr : missing_relations_in_relations h1
                 = (0, with_reconciled h (std_sort (m_relation_ids h)) [])).
  { destruct Hh1 as [[-> _] | [-> _]]; [assumption |].
    now rewrite reconciled_done by reflexivity. }
  assert (Hc : m_missing_nodes_in_ways h1 = m_missing_nodes_in_ways h
               /\ m_missing_nodes_in_relations h1
                  = m_missing_nodes_in_relations h
               /\ m_missing_ways_in_relations h1
                  = m_missing_ways_in_relations h).
  { destruct Hh1 as [[-> _] | [-> _]]; repeat split. }
  destruct Hc as (E1 & E2 & E3).
  unfold any_errors. rewrite E1, E2, E3, Hmrr.
  destruct (Z.ltb_spec 0 (m_missing_nodes_in_ways h)); cbn [fst snd negb].
  { split; [destruct Hh1 as [[-> _] | [-> _]]; auto |].
    split; [discriminate | lia]. }
  destruct (Z.ltb_spec 0 (m_missing_nodes_in_relations h));
    cbn [fst snd negb].
  { split; [destruct Hh1 as [[-> _] | [-> _]]; auto |].
    split; [discriminate | lia]. }
  destruct (Z.ltb_spec 0 (m_missing_ways_in_relations h));
    cbn [fst snd negb].
  { split; [destruct Hh1 as [[-> _] | [-> _]]; auto |].
    split; [discriminate | lia]. }
  split; [now right |].
  cbn. split; [lia | reflexivity].
Qed.

(** ** The [std::cout] trace *)

Lemma shown_app p h line :
  Z.of_nat (length (filter p (cout h ++ [line])))
  = shown p h + (if p line then 1 else 0).
Proof.
  unfold shown. rewrite filter_app, length_app, Nat2Z.inj_add. cbn [filter].
  destruct (p line); reflexivity.
Qed.

Ltac shown_step :=
  match goal with
  | Hinv : shown_inv ?h |- _ =>
      destruct Hinv as [Hon E1 E2 E3 E4]; destruct h; cbn in Hon; subst
  end;
  constructor; cbn in *; auto;
  unfold shown in *; cbn [cout] in *;
  rewrite ?filter_app, ?length_app, ?Nat2Z.inj_add; cbn;
  rewrite ?Z.add_0_r; auto;
  match goal with
  | E : ?c = uint64_t ?n |- incr ?c = uint64_t (?n + 1) =>
      rewrite E; apply incr_uint64_t
  end.

Lemma new_handler_shown check_relations :
  shown_inv (new_handler true check_relations).
Proof. constructor; reflexivity. Qed.

Lemma handle_node_shown h id : shown_inv h -> shown_inv (handle_node h id).
Proof. intros []. constructor; assumption. Qed.

Lemma way_node_ref_shown id h ref :
  shown_inv h -> shown_inv (way_node_ref id h ref).
Proof.
  intros Hinv. unfold way_node_ref, show.
  destruct (bitsvec.get (m_nodes h) ref); cbn [negb]; [assumption |].
  shown_step.
Qed.

Lemma relation_member_shown id h m :
  shown_inv h -> shown_inv (relation_member id h m).
Proof.
  intros Hinv. unfold relation_member, show.
  destruct (member_type m); try assumption.
  - destruct (bitsvec.get (m_nodes h) (member_ref m)); cbn [negb];
      [assumption | shown_step].
  - destruct (bitsvec.get (m_ways h) (member_ref m)); cbn [negb];
      [assumption | shown_step].
  - destruct Hinv. constructor; assumption.
Qed.

Lemma fold_left_inv {B : Type} (P : RefCheckHandler -> Prop)
  (f : RefCheckHandler -> B -> RefCheckHandler) :
  (forall h b, P h -> P (f h b)) ->
  forall l h, P h -> P (fold_left f l h).
Proof.
  intros Hstep. induction l as [| b l IH]; intros h Hh; cbn [fold_left];
    [assumption |].
  apply IH, Hstep, Hh.
Qed.

Lemma handle_shown h e : shown_inv h -> shown_inv (handle h e).
Proof.
  intros Hinv. destruct e as [id | id nodes | id members]; cbn [handle].
  - now apply handle_node_shown.
  - unfold handle_way.
    apply fold_left_inv; [intros; now apply way_node_ref_shown |].
    destruct Hinv. destruct (m_check_relations _); constructor; assumption.
  - unfold handle_relation.
    destruct (m_check_relations _).
    + apply fold_left_inv; [intros; now apply relation_member_shown |].
      destruct Hinv. constructor; assumption.
    + destruct Hinv. constructor; assumption.
Qed.

Lemma way_node_ref_quiet id h ref :
  quiet_inv h -> quiet_inv (way_node_ref id h ref).
Proof.
  intros [Hoff Hnil]. unfold way_node_ref, show.
  destruct (bitsvec.get (m_nodes h) ref); cbn [negb];
    [now constructor |].
  destruct h; cbn in *; subst. now constructor.
Qed.

Lemma relation_member_quiet id h m :
  quiet_inv h -> quiet_inv (relation_member id h m).
Proof.
  intros [Hoff Hnil]. unfold relation_member, show.
  destruct h; cbn in *; subst.
  split_step; now constructor.
Qed.

Lemma handle_quiet h e : quiet_inv h -> quiet_inv (handle h e).
Proof.
  intros Hinv. destruct e as [id | id nodes | id members]; cbn [handle].
  - destruct Hinv. now constructor.
  - unfold handle_way.
    apply fold_left_inv; [intros; now apply way_node_ref_quiet |].
    destruct Hinv. destruct (m_check_relations _); now constructor.
  - unfold handle_relation.
    destruct (m_check_relations _).
    + apply fold_left_inv; [intros; now apply relation_member_quiet |].
      destruct Hinv. now constructor.
    + destruct Hinv. now constructor.
Qed.

(** X2: with [m_show_ids] set, when [run] ends each of the three counters
    of the pass equals (as [uint64_t]) the number of lines of its form
    written to [std::cout]: every counted miss was shown once and nothing
    else was shown in these three forms. *)
Theorem shown_lines_match_the_counters
  (check_relations : bool) (input : list entity) :
  let h := snd (run true check_relations input) in
  m_missing_nodes_in_ways h = uint64_t (shown is_n_in_w h)
  /\ m_missing_nodes_in_relations h = uint64_t (shown is_n_in_r h)
  /\ m_missing_ways_in_relations h = uint64_t (shown is_w_in_r h).
Proof.
  intros h.
  assert (Hinv : shown_inv (apply input (new_handler true check_relations))).
  { unfold apply. apply fold_left_inv; [intros; now apply handle_shown |].
    apply new_handler_shown. }
  destruct (run_outcome true check_relations input) as [Hr _].
  cbn zeta in Hr. fold h in Hr.
  destruct Hinv as [_ E1 E2 E3 _].
  destruct Hr as [-> | ->]; auto.
Qed.

(** X3: without [m_show_ids], [run] writes nothing to [std::cout],
    whatever the input holds. *)
Theorem nothing_shown_without_show_ids
  (check_relations : bool) (input : list entity) :
  cout (snd (run false check_relations input)) = [].
Proof.
  assert (Hinv : quiet_inv (apply input (new_handler false check_relations))).
  { unfold apply. apply fold_left_inv; [intros; now apply handle_quiet |].
    now constructor. }
  destruct (run_outcome false check_relations input) as [Hr _].
  cbn zeta in Hr. destruct Hinv as [_ Hnil].
  destruct Hr as [-> | ->]; exact Hnil.
Qed.

(** X4: the relation-to-relation check never reports anything: for every
    input and both flags, [missing_relations_in_relations] returns 0 after
    the pass, [run] ends with an empty [m_missing_relation_ids], and no
    "r<id> in r" line is written. *)
Theorem no_relation_is_ever_reported_missing
  (show_ids check_relations : bool) (input : list entity) :
  let h := apply input (new_handler show_ids check_relations) in
  let r := snd (run show_ids check_relations input) in
  fst (missing_relations_in_relations h) = 0
  /\ m_missing_relation_ids r = []
  /\ shown is_r_in_r r = 0.
Proof.
  intros h r.
  assert (Hinv : handler_inv h) by apply apply_inv, new_handler_inv.
  assert (Hrr : shown is_r_in_r h = 0).
  { subst h. destruct show_ids.
    - assert (Hs : shown_inv (apply input (new_handler true check_relations))).
      { unfold apply. apply fold_left_inv; [intros; now apply handle_shown |].
        apply new_handler_shown. }
      apply Hs.
    - assert (Hq : quiet_inv
                     (apply input (new_handler false check_relations))).
      { unfold apply. apply fold_left_inv; [intros; now apply handle_quiet |].
        now constructor. }
      unfold shown. now rewrite (quiet_cout _ Hq). }
  destruct (run_outcome show_ids check_relations input) as [Hr _].
  cbn zeta in Hr. fold h r in Hr.
  split; [now rewrite (reconcile_nothing h Hinv) |].
  destruct Hr as [-> | ->]; split;
    try exact Hrr; try reflexivity; apply Hinv.
Qed.

(** ** [m_show_ids] and the findings *)

Ltac hush_same :=
  match goal with
  | Hs : hush ?h = hush ?g |- _ =>
      destruct h, g; unfold hush in Hs; cbn in Hs;
      injection Hs as -> -> -> -> -> -> -> -> -> -> -> -> ->
  end.

Lemma way_node_ref_hush id h g ref :
  hush h = hush g ->
  hush (way_node_ref id h ref) = hush (way_node_ref id g ref).
Proof.
  intros Hs. hush_same. unfold way_node_ref, show. cbn.
  split_step; reflexivity.
Qed.

Lemma relation_member_hush id h g m :
  hush h = hush g ->
  hush (relation_member id h m) = hush (relation_member id g m).
Proof.
  intros Hs. hush_same. unfold relation_member, show. cbn.
  split_step; reflexivity.
Qed.

Lemma fold_left_hush {B : Type} (f : RefCheckHandler -> B -> RefCheckHandler) :
  (forall h g b, hush h = hush g -> hush (f h b) = hush (f g b)) ->
  forall l h g, hush h = hush g ->
  hush (fold_left f l h) = hush (fold_left f l g).
Proof.
  intros Hstep. induction l as [| b l IH]; intros h g Hs; cbn [fold_left];
    [assumption |].
  apply IH, Hstep, Hs.
Qed.

Lemma handle_hush h g e :
  hush h = hush g -> hush (handle h e) = hush (handle g e).
Proof.
  intros Hs. destruct e as [id | id nodes | id members]; cbn [handle].
  - hush_same. reflexivity.
  - unfold handle_way.
    apply fold_left_hush; [intros; now apply way_node_ref_hush |].
    hush_same. cbn. split_step; reflexivity.
  - unfold handle_relation.
    assert (Hc : m_check_relations h = m_check_relations g)
      by exact (f_equal m_check_relations Hs).
    cbn. rewrite <- Hc. destruct (m_check_relations h).
    + apply fold_left_hush; [intros; now apply relation_member_hush |].
      hush_same. reflexivity.
    + hush_same. reflexivity.
Qed.

Lemma reconcile_hush h g :
  hush h = hush g ->
  fst (missing_relations_in_relations h)
  = fst (missing_relations_in_relations g)
  /\ hush (snd (missing_relations_in_relations h))
     = hush (snd (missing_relations_in_relations g)).
Proof.
  intros Hs. hush_same. unfold missing_relations_in_relations. cbn.
  split_step; split; reflexivity.
Qed.

Lemma any_errors_hush h g :
  hush h = hush g ->
  fst (any_errors h) = fst (any_errors g)
  /\ hush (snd (any_errors h)) = hush (snd (any_errors g)).
Proof.
  intros Hs. destruct (reconcile_hush h g Hs) as [Hn Hh].
  unfold any_errors.
  assert (E1 : m_missing_nodes_in_ways h = m_missing_nodes_in_ways g)
    by exact (f_equal m_missing_nodes_in_ways Hs).
  assert (E2 : m_missing_nodes_in_relations h
               = m_missing_nodes_in_relations g)
    by exact (f_equal m_missing_nodes_in_relations Hs).
  assert (E3 : m_missing_ways_in_relations h = m_missing_ways_in_relations g)
    by exact (f_equal m_missing_ways_in_relations Hs).
  rewrite E1, E2, E3.
  destruct (0 <? m_missing_nodes_in_ways g);
    [cbn [fst snd]; split; [reflexivity | exact Hs] |].
  destruct (0 <? m_missing_nodes_in_relations g);
    [cbn [fst snd]; split; [reflexivity | exact Hs] |].
  destruct (0 <? m_missing_ways_in_relations g);
    [cbn [fst snd]; split; [reflexivity | exact Hs] |].
  destruct (missing_relations_in_relations h),
           (missing_relations_in_relations g).
  cbn [fst snd] in *. subst. split; [reflexivity | assumption].
Qed.

Lemma show_missing_hush h : hush (show_missing_relation_ids h) = hush h.
Proof. reflexivity. Qed.

(** X5: [m_show_ids] changes what is written and nothing else: for every
    input, [run] returns the same result with and without it, and the two
    final handlers agree on every member but [m_show_ids] and the
    [std::cout] trace (presence sets, ledgers, counts, counters). *)
Theorem show_ids_changes_no_finding
  (check_relations : bool) (input : list entity) :
  let shown_run := run true check_relations input in
  let quiet_run := run false check_relations input in
  fst shown_run = fst quiet_run
  /\ hush (snd shown_run) = hush (snd quiet_run)
  /\ m_missing_nodes_in_ways (snd shown_run)
     = m_missing_nodes_in_ways (snd quiet_run)
  /\ m_missing_nodes_in_relations (snd shown_run)
     = m_missing_nodes_in_relations (snd quiet_run)
  /\ m_missing_ways_in_relations (snd shown_run)
     = m_missing_ways_in_relations (snd quiet_run).
Proof.
  intros shown_run quiet_run.
  assert (H0 : hush (apply input (new_handler true check_relations))
               = hush (apply input (new_handler false check_relations))).
  { unfold apply. apply fold_left_hush; [apply handle_hush | reflexivity]. }
  assert (H : fst shown_run = fst quiet_run
              /\ hush (snd shown_run) = hush (snd quiet_run)).
  { subst shown_run quiet_run. unfold run.
    set (ht := apply input (new_handler true check_relations)) in *.
    set (hf := apply input (new_handler false check_relations)) in *.
    assert (H1 : hush (show_missing_relation_ids
                         (if check_relations
                          then snd (missing_relations_in_relations ht)
                          else ht))
                 = hush (if check_relations
                         then snd (missing_relations_in_relations hf)
                         else hf)).
    { rewrite show_missing_hush. destruct check_relations; [| exact H0].
      apply (reconcile_hush ht hf H0). }
    destruct (any_errors_hush _ _ H1) as [He Hh].
    destruct (any_errors (show_missing_relation_ids _)),
             (any_errors (if check_relations then _ else hf)).
    cbn in *. subst. now split. }
  destruct H as [Hfst Hsnd].
  repeat split; try assumption.
  - exact (f_equal m_missing_nodes_in_ways Hsnd).
  - exact (f_equal m_missing_nodes_in_relations Hsnd).
  - exact (f_equal m_missing_ways_in_relations Hsnd).
Qed.

(** ** Node references of ways over a whole stream *)

Lemma handle_missing_nodes_in_ways_frame h e :
  is_way e = false ->
  m_missing_nodes_in_ways (handle h e) = m_missing_nodes_in_ways h.
Proof.
  destruct e as [id | id nodes | id members]; cbn [handle is_way];
    intros Hw; try discriminate Hw.
  - reflexivity.
  - unfold handle_relation.
    destruct h as [? ? ? ? ? ? ? ? ? ? ? ? [] ? ?]; cbn; [| reflexivity].
    now rewrite (fold_left_frame (relation_member id) m_missing_nodes_in_ways)
      by (intros; frame_step relation_member).
Qed.

Lemma apply_missing_nodes_in_ways_frame input : forall h,
  forallb (fun e => negb (is_way e)) input = true ->
  m_missing_nodes_in_ways (apply input h) = m_missing_nodes_in_ways h.
Proof.
  unfold apply. induction input as [| e input IH]; intros h Hno;
    cbn [fold_left]; [reflexivity |].
  cbn [forallb] in Hno. apply andb_true_iff in Hno as [He Hno].
  rewrite IH by assumption.
  apply handle_missing_nodes_in_ways_frame. now apply negb_true_iff.
Qed.

Lemma points_are_not_ways points :
  forallb (fun e => negb (is_way e)) (map Node points) = true.
Proof. induction points; cbn; auto. Qed.

Lemma relations_are_not_ways (relations : list (Z * list RelationMember)) :
  forallb (fun e => negb (is_way e))
    (map (fun r => Relation (fst r) (snd r)) relations) = true.
Proof. induction relations; cbn; auto. Qed.

Lemma absent_refs_app b l l' :
  absent_refs b (l ++ l') = absent_refs b l ++ absent_refs b l'.
Proof. unfold absent_refs. apply filter_app. Qed.

Lemma ways_phase_missing ways : forall h,
  counter (m_missing_nodes_in_ways h) ->
  let h' := apply (map (fun w => Way (fst w) (snd w)) ways) h in
  m_nodes h' = m_nodes h
  /\ m_missing_nodes_in_ways h'
     = uint64_t (m_missing_nodes_in_ways h
                 + Z.of_nat (length (absent_refs (m_nodes h)
                                       (all_way_nodes ways)))).
Proof.
  unfold apply, all_way_nodes.
  induction ways as [| [id nodes] ways IH]; intros h Hc;
    cbn [map fold_left fst snd handle flat_map].
  - split; [reflexivity |]. cbn. rewrite Z.add_0_r. symmetry.
    now apply uint64_t_small.
  - destruct (IH (handle_way h id nodes)) as [En Ec].
    { rewrite handle_way_missing by assumption.
      apply Z.mod_pos_bound. lia. }
    cbn zeta in *. rewrite En, Ec, handle_way_nodes.
    split; [reflexivity |].
    rewrite handle_way_missing by assumption.
    rewrite absent_refs_app, length_app, Nat2Z.inj_add.
    unfold uint64_t. rewrite Zplus_mod_idemp_l. f_equal. lia.
Qed.

Lemma stream_way_nodes_ok points ways relations :
  Forall entity_ok (stream points ways relations) ->
  Forall object_id (all_way_nodes ways).
Proof.
  unfold stream, all_way_nodes. intros Hok.
  apply Forall_app in Hok as [_ Hok]. apply Forall_app in Hok as [Hw _].
  rewrite Forall_forall in Hw. apply Forall_forall.
  intros ref Hin. apply in_flat_map in Hin as ([id nodes] & Hin & Href).
  pose proof (Hw _ (in_map (fun w => Way (fst w) (snd w)) _ _ Hin))
    as [_ Hnodes].
  rewrite Forall_forall in Hnodes. now apply Hnodes.
Qed.

(** The references of the ways that no streamed point matches (up to sign),
    one entry per occurrence. *)
Lemma missing_nodes_in_ways_closed_form
  (show_ids check_relations : bool) (points : list Z)
  (ways : list (Z * list Z)) (relations : list (Z * list RelationMember)) :
  Forall entity_ok (stream points ways relations) ->
  m_missing_nodes_in_ways
    (apply (stream points ways relations)
       (new_handler show_ids check_relations))
  = uint64_t (Z.of_nat (length (filter (fun ref => negb (marked points ref))
                                  (all_way_nodes ways)))).
Proof.
  intros Hok.
  destruct (stream_ok _ _ _ Hok) as (Hp & _ & _).
  pose proof (stream_way_nodes_ok _ _ _ Hok) as Hrefs.
  unfold stream. rewrite !apply_app.
  rewrite apply_missing_nodes_in_ways_frame by apply relations_are_not_ways.
  set (h0 := new_handler show_ids check_relations).
  set (hp := apply (map Node points) h0).
  assert (Ec : m_missing_nodes_in_ways hp = 0).
  { subst hp. now rewrite apply_missing_nodes_in_ways_frame
      by apply points_are_not_ways. }
  assert (En : m_nodes hp = mark_all bitsvec.empty points).
  { destruct (points_phase node points h0 (or_introl eq_refl)) as [E _].
    exact E. }
  destruct (ways_phase_missing ways hp) as [_ Ew].
  { rewrite Ec. unfold counter. lia. }
  cbn zeta in Ew. rewrite Ew, Ec, En, Z.add_0_l. f_equal. f_equal. f_equal.
  unfold absent_refs. apply filter_ext_in. intros ref Hin.
  rewrite Forall_forall in Hrefs.
  rewrite mark_all_get by auto.
  now rewrite bitsvec_get_empty, orb_false_r.
Qed.

(** X6: on a stream of points, then paths, then relations,
    [m_missing_nodes_in_ways] ends as the number (as [uint64_t]) of node
    references of the paths, counted per occurrence, that no streamed point
    matches up to sign; relation checking and relations have no part in
    it. *)
Theorem missing_nodes_in_ways_counts_dangling_references
  (show_ids check_relations : bool) (points : list Z)
  (ways : list (Z * list Z)) (relations : list (Z * list RelationMember)) :
  Forall entity_ok (stream points ways relations) ->
  let dangling :=
    filter (fun ref => negb (marked points ref)) (all_way_nodes ways) in
  m_missing_nodes_in_ways
    (snd (run show_ids check_relations (stream points ways relations)))
  = uint64_t (Z.of_nat (length dangling))
  /\ (forall ref, In ref dangling <->
        In ref (all_way_nodes ways)
        /\ forall p, In p points -> Z.abs p <> Z.abs ref).
Proof.
  intros Hok dangling. subst dangling. split.
  - destruct (run_outcome show_ids check_relations
                (stream points ways relations)) as [Hr _].
    cbn zeta in Hr.
    rewrite <- (missing_nodes_in_ways_closed_form show_ids check_relations
                  points ways relations Hok).
    destruct Hr as [-> | ->]; reflexivity.
  - intros ref. rewrite filter_In, negb_true_iff.
    split; intros [Hin Hm]; (split; [assumption |]).
    + intros p Hp E.
      assert (marked points ref = true) as Hc; [| congruence].
      apply marked_spec. eauto.
    + destruct (marked points ref) eqn:E; [| reflexivity].
      apply marked_spec in E as (p & Hp & E). now apply Hm in Hp.
Qed.

Lemma missing_nodes_in_ways_counts_dangling_references_witness :
  m_missing_nodes_in_ways
    (snd (run false false (stream [1; -2] [(10, [1; 3; 2; 3])] []))) = 2.
Proof.
  destruct (missing_nodes_in_ways_counts_dangling_references false false
              [1; -2] [(10, [1; 3; 2; 3])] []) as [E _].
  - repeat constructor; unfold object_id; cbn; lia.
  - rewrite E. reflexivity.
Defined.

(** ** Runs without relation checking *)

(** The members that only relation checking writes. *)
Lemma handle_off h e :
  m_check_relations h = false ->
  (m_ways (handle h e), m_relation_ids (handle h e),
   m_member_relation_ids (handle h e),
   m_missing_nodes_in_relations (handle h e),
   m_missing_ways_in_relations (handle h e))
  = (m_ways h, m_relation_ids h, m_member_relation_ids h,
     m_missing_nodes_in_relations h, m_missing_ways_in_relations h).
Proof.
  intros Hoff. destruct e as [id | id nodes | id members]; cbn [handle].
  - reflexivity.
  - unfold handle_way.
    rewrite (fold_left_frame (way_node_ref id)
               (fun g => (m_ways g, m_relation_ids g, m_member_relation_ids g,
                          m_missing_nodes_in_relations g,
                          m_missing_ways_in_relations g)))
      by (intros; frame_step way_node_ref).
    destruct h; cbn in *. now rewrite Hoff.
  - unfold handle_relation. destruct h; cbn in *. now rewrite Hoff.
Qed.

Lemma apply_off input : forall h,
  m_check_relations h = false ->
  (m_ways (apply input h), m_relation_ids (apply input h),
   m_member_relation_ids (apply input h),
   m_missing_nodes_in_relations (apply input h),
   m_missing_ways_in_relations (apply input h))
  = (m_ways h, m_relation_ids h, m_member_relation_ids h,
     m_missing_nodes_in_relations h, m_missing_ways_in_relations h).
Proof.
  unfold apply. induction input as [| e input IH]; intros h Hoff;
    cbn [fold_left]; [reflexivity |].
  rewrite IH by now rewrite handle_check_relations.
  now apply handle_off.
Qed.

(** X7: without relation checking, and whatever the input and its order,
    the pass leaves [m_ways] and both ledgers empty and both relation
    counters at 0, so [get] on [m_ways] answers [false] for every ID, and
    [run] returns [true] exactly when [m_missing_nodes_in_ways] is 0. *)
Theorem without_relation_checking_only_way_nodes_count
  (show_ids : bool) (input : list entity) (id : Z) :
  let h := apply input (new_handler show_ids false) in
  m_ways h = bitsvec.empty
  /\ bitsvec.get (m_ways h) id = false
  /\ m_relation_ids h = []
  /\ m_member_relation_ids h = []
  /\ m_missing_nodes_in_relations h = 0
  /\ m_missing_ways_in_relations h = 0
  /\ (fst (run show_ids false input) = true <->
      m_missing_nodes_in_ways h = 0).
Proof.
  intros h.
  pose proof (apply_off input (new_handler show_ids false) eq_refl) as E.
  fold h in E. cbn in E.
  injection E as Ew Er Em Enr Ewr.
  destruct (run_outcome show_ids false input) as [_ Hrun].
  cbn zeta in Hrun. fold h in Hrun.
  rewrite Ew. repeat split; try assumption.
  - apply bitsvec_get_empty.
  - apply Hrun.
  - intros Hz. apply Hrun. auto.
Qed.

(** ** The result of [run] on an ordered stream *)

Lemma missing_members_closed_form
  (show_ids : bool) (points : list Z) (ways : list (Z * list Z))
  (relations : list (Z * list RelationMember)) (k : item_type) :
  k = node \/ k = way ->
  Forall entity_ok (stream points ways relations) ->
  missing_in_relations k
    (apply (stream points ways relations) (new_handler show_ids true))
  = Z.of_nat
      (length (new_ids (marked (streamed k points ways))
                 (map Z.abs (refs_of k (all_members relations))))).
Proof.
  intros Hk Hok.
  destruct (stream_ok _ _ _ Hok) as (Hp & Hw & Hms).
  pose proof (streamed_ok k points ways Hk Hp Hw) as Hs.
  set (h := apply (stream points ways relations) (new_handler show_ids true)).
  set (h0 := new_handler show_ids true).
  set (hp := apply (map Node points) h0).
  set (hw := apply (map (fun w => Way (fst w) (snd w)) ways) hp).
  assert (Eh : h = apply (map (fun r => Relation (fst r) (snd r)) relations)
                     hw).
  { subst h hw hp. unfold stream. now rewrite !apply_app. }
  assert (Hon : m_check_relations hw = true).
  { subst hw hp. now rewrite !apply_check_relations. }
  assert (Ehw : presence k hw = mark_all bitsvec.empty (streamed k points ways)
                /\ missing_in_relations k hw = 0).
  { destruct (points_phase k points h0 Hk) as [Ep Ec].
    destruct (ways_phase k ways hp Hk) as [Ep' Ec'].
    { subst hp. now rewrite apply_check_relations. }
    cbn zeta in *. fold hp in Ep, Ec. fold hw in Ep', Ec'.
    rewrite Ep', Ec', Ep, Ec, streamed_split by assumption.
    destruct Hk as [-> | ->]; split; reflexivity. }
  destruct Ehw as [Ep Ec].
  assert (Hinv : handler_inv h)
    by (subst h; apply apply_inv, new_handler_inv).
  assert (Hrange : Forall abs_in_range
                     (map Z.abs (refs_of k (all_members relations))))
    by now apply refs_of_range.
  set (missing := new_ids (marked (streamed k points ways))
                    (map Z.abs (refs_of k (all_members relations)))).
  assert (Emissing :
    new_ids (bitsvec.get (presence k hw))
      (map Z.abs (refs_of k (all_members relations))) = missing).
  { subst missing. apply new_ids_ext. intros z Hz. rewrite Ep.
    rewrite Forall_forall in Hrange.
    rewrite mark_all_get_index;
      [| assumption | apply abs_in_range_indexable; auto].
    rewrite bitsvec_get_empty. apply orb_false_r. }
  pose proof (relations_phase_potential k relations hw [] Hk Hon Hms
                (Forall_nil _)) as Hpot.
  cbn zeta in Hpot. rewrite <- Eh, app_nil_r, Emissing, Ec in Hpot.
  cbn [new_ids filter nodup length Z.of_nat] in Hpot.
  rewrite Z.add_0_r, Z.add_0_l in Hpot.
  assert (Hc : counter (missing_in_relations k h))
    by (destruct Hinv, Hk as [-> | ->]; assumption).
  rewrite (uint64_t_small _ Hc) in Hpot. rewrite Hpot.
  apply uint64_t_small. split; [lia |].
  assert (Z.of_nat (length missing) <= 2 ^ 63 + 1); [| lia].
  apply NoDup_range_length; [lia | apply new_ids_NoDup |].
  apply Forall_forall. intros z Hz. apply new_ids_In in Hz as [Hz _].
  rewrite Forall_forall in Hrange. specialize (Hrange z Hz).
  unfold abs_in_range in Hrange. lia.
Qed.

Lemma marked_abs ids r : marked ids (Z.abs r) = marked ids r.
Proof. unfold marked. now rewrite Z.abs_idemp. Qed.

Lemma no_new_ids seen refs :
  Z.of_nat (length (new_ids seen (map Z.abs refs))) = 0 <->
  forall r, In r refs -> seen (Z.abs r) = true.
Proof.
  split.
  - intros Hlen r Hr.
    destruct (seen (Z.abs r)) eqn:E; [reflexivity |].
    assert (Hin : In (Z.abs r) (new_ids seen (map Z.abs refs))).
    { apply new_ids_In. split; [now apply in_map | assumption]. }
    destruct (new_ids seen (map Z.abs refs)); [destruct Hin |].
    cbn [length] in Hlen. lia.
  - intros Hall.
    destruct (new_ids seen (map Z.abs refs)) as [| a l] eqn:E;
      [reflexivity |].
    assert (Hin : In a (new_ids seen (map Z.abs refs)))
      by (rewrite E; now left).
    apply new_ids_In in Hin as [Hin Hseen].
    apply in_map_iff in Hin as (r & <- & Hr).
    rewrite Hall in Hseen by assumption. discriminate Hseen.
Qed.

Lemma no_absent_refs (seen : Z -> bool) (refs : list Z) :
  Z.of_nat (length refs) < 2 ^ 64 ->
  (uint64_t (Z.of_nat (length (filter (fun r => negb (seen r)) refs))) = 0 <->
   forall r, In r refs -> seen r = true).
Proof.
  intros Hfit.
  pose proof (filter_length_le (fun r => negb (seen r)) refs) as Hle.
  rewrite uint64_t_small by lia.
  split.
  - intros Hlen r Hr.
    destruct (seen r) eqn:E; [reflexivity |].
    assert (Hin : In r (filter (fun r => negb (seen r)) refs)).
    { apply filter_In. split; [assumption |]. now rewrite E. }
    destruct (filter _ refs); [destruct Hin |]. cbn [length] in Hlen. lia.
  - intros Hall. rewrite filter_none; [reflexivity |].
    intros r Hr. now rewrite Hall.
Qed.

(** X8: on a stream of points, then paths, then relations, whose paths hold
    fewer than [2^64] node references, [run] returns [true] exactly when
    every node reference of a path matches a streamed point up to sign and,
    with relation checking, every point member matches a streamed point and
    every path member a streamed path, up to sign.  Members of type
    relation have no part in the result. *)
Theorem run_succeeds_iff_no_reference_dangles
  (show_ids check_relations : bool) (points : list Z)
  (ways : list (Z * list Z)) (relations : list (Z * list RelationMember)) :
  Forall entity_ok (stream points ways relations) ->
  Z.of_nat (length (all_way_nodes ways)) < 2 ^ 64 ->
  (fst (run show_ids check_relations (stream points ways relations)) = true
   <->
   (forall ref, In ref (all_way_nodes ways) -> marked points ref = true)
   /\ (check_relations = true ->
       (forall ref, In ref (refs_of node (all_members relations)) ->
                    marked points ref = true)
       /\ (forall ref, In ref (refs_of way (all_members relations)) ->
                       marked (map fst ways) ref = true))).
Proof.
  intros Hok Hfit.
  destruct (run_outcome show_ids check_relations
              (stream points ways relations)) as [_ Hrun].
  cbn zeta in Hrun. rewrite Hrun. clear Hrun.
  rewrite (missing_nodes_in_ways_closed_form show_ids check_relations
             points ways relations Hok).
  rewrite (no_absent_refs (marked points) _ Hfit).
  destruct check_relations.
  - pose proof (missing_members_closed_form show_ids points ways relations
                  node (or_introl eq_refl) Hok) as En.
    pose proof (missing_members_closed_form show_ids points ways relations
                  way (or_intror eq_refl) Hok) as Ew.
    cbn [missing_in_relations streamed] in En, Ew.
    rewrite En, Ew, !no_new_ids.
    split.
    + intros (Hw & Hn & Hp). split; [assumption |]. intros _. split.
      * intros ref Hin. rewrite <- marked_abs. now apply Hn.
      * intros ref Hin. rewrite <- marked_abs. now apply Hp.
    + intros (Hw & Hrel). destruct (Hrel eq_refl) as [Hn Hp].
      split; [assumption |]. split.
      * intros ref Hin. rewrite marked_abs. now apply Hn.
      * intros ref Hin. rewrite marked_abs. now apply Hp.
  - pose proof (apply_off (stream points ways relations)
                  (new_handler show_ids false) eq_refl) as E.
    cbn in E. injection E as _ _ _ Enr Ewr. rewrite Enr, Ewr.
    split.
    + intros (Hw & _ & _). split; [assumption | discriminate].
    + intros (Hw & _). auto.
Qed.

Lemma run_succeeds_iff_no_reference_dangles_witness :
  let m2 := {| member_type := node; member_ref := -2 |} in
  let m10 := {| member_type := way; member_ref := 10 |} in
  let m77 := {| member_type := relation; member_ref := 77 |} in
  fst (run false true (stream [1; 2] [(10, [1; 2; 1])] [(5, [m2; m10; m77])]))
  = true.
Proof.
  intros m2 m10 m77.
  apply (run_succeeds_iff_no_reference_dangles false true [1; 2]
           [(10, [1; 2; 1])] [(5, [m2; m10; m77])]).
  - repeat constructor; unfold object_id; cbn; lia.
  - cbn. lia.
  - split; [| intros _; split]; intros ref Hin; cbn in Hin;
      repeat (destruct Hin as [<- | Hin]; [reflexivity |]); destruct Hin.
Defined.

(** ** Repeated queries *)

(** X9: [any_errors] can be asked again: called on the handler that a call
    left, it gives the same answer and leaves that handler as it is. *)
Theorem any_errors_can_be_asked_again (h : RefCheckHandler) :
  any_errors (snd (any_errors h)) = any_errors h.
Proof.
  unfold any_errors.
  destruct (0 <? m_missing_nodes_in_ways h) eqn:T1;
    [cbn [snd]; now rewrite T1 |].
  destruct (0 <? m_missing_nodes_in_relations h) eqn:T2;
    [cbn [snd]; now rewrite T1, T2 |].
  destruct (0 <? m_missing_ways_in_relations h) eqn:T3;
    [cbn [snd]; now rewrite T1, T2, T3 |].
  pose proof (reconcile_counters h) as (E1 & E2 & E3 & En & Hdone).
  destruct (missing_relations_in_relations h) as [n h1]. cbn [fst snd] in *.
  rewrite E1, E2, E3, T1, T2, T3.
  rewrite (reconciled_done h1 Hdone). now rewrite <- En.
Qed.

Lemma handle_reconciled_frame h e :
  (m_relations_done (handle h e), m_missing_relation_ids (handle h e))
  = (m_relations_done h, m_missing_relation_ids h).
Proof.
  destruct e as [id | id nodes | id members]; cbn [handle].
  - reflexivity.
  - unfold handle_way.
    rewrite (fold_left_frame (way_node_ref id)
               (fun g => (m_relations_done g, m_missing_relation_ids g)))
      by (intros; frame_step way_node_ref).
    destruct h as [? ? ? ? ? ? ? ? ? ? ? ? [] ? ?]; reflexivity.
  - unfold handle_relation.
    destruct h as [? ? ? ? ? ? ? ? ? ? ? ? [] ? ?]; cbn; [| reflexivity].
    now rewrite (fold_left_frame (relation_member id)
                   (fun g => (m_relations_done g, m_missing_relation_ids g)))
      by (intros; frame_step relation_member).
Qed.

(** X10: once [missing_relations_in_relations] has run, its answer is
    final: entities handled afterwards (relations included) leave
    [m_missing_relation_ids] as it is, and a later call returns the same
    number. *)
Theorem reconciliation_result_is_final
  (h : RefCheckHandler) (input : list entity) :
  let first := missing_relations_in_relations h in
  let later := apply input (snd first) in
  m_missing_relation_ids later = m_missing_relation_ids (snd first)
  /\ fst (missing_relations_in_relations later) = fst first.
Proof.
  intros first later.
  pose proof (reconcile_counters h) as (_ & _ & _ & En & Hdone).
  cbn zeta in En, Hdone. fold first in En, Hdone.
  assert (E : (m_relations_done later, m_missing_relation_ids later)
              = (m_relations_done (snd first),
                 m_missing_relation_ids (snd first))).
  { subst later. unfold apply.
    apply (fold_left_frame handle
             (fun g => (m_relations_done g, m_missing_relation_ids g))).
    apply handle_reconciled_frame. }
  injection E as Ed Em.
  split; [exact Em |].
  rewrite reconciled_done by (rewrite Ed; exact Hdone).
  rewrite Em. symmetry. exact En.
Qed.

(** ** The ledger after the pass *)

Lemma relation_member_member_ids id h m r :
  In r (m_member_relation_ids (relation_member id h m)) <->
  In r (m_member_relation_ids h)
  \/ (item_type_eqb (member_type m) relation = true /\ r = uint32_t id).
Proof.
  unfold relation_member.
  destruct (member_type m); cbn [item_type_eqb];
    try (split_step; autorewrite with frame; cbn;
         intuition discriminate).
  cbn. rewrite set_insert_In. intuition.
Qed.

Lemma relation_loop_member_ids id members r : forall h,
  In r (m_member_relation_ids (fold_left (relation_member id) members h)) <->
  In r (m_member_relation_ids h)
  \/ (has_relation_member members = true /\ r = uint32_t id).
Proof.
  unfold has_relation_member.
  induction members as [| m members IH]; intros h; cbn [fold_left existsb].
  - intuition discriminate.
  - rewrite IH, relation_member_member_ids, orb_true_iff. intuition.
Qed.

Lemma apply_ledger input r : forall h,
  m_check_relations h = true ->
  m_relation_ids (apply input h) = m_relation_ids h ++ relation_ids_of input
  /\ (In r (m_member_relation_ids (apply input h)) <->
      In r (m_member_relation_ids h)
      \/ exists id members,
           In (Relation id members) input
           /\ has_relation_member members = true /\ r = uint32_t id).
Proof.
  unfold apply, relation_ids_of.
  induction input as [| e input IH]; intros h Hon;
    cbn [fold_left flat_map].
  - rewrite app_nil_r. split; [reflexivity |].
    split; [auto | intros [H | (? & ? & [] & _)]; exact H].
  - destruct (IH (handle h e)) as [Er Em];
      [now rewrite handle_check_relations |].
    rewrite Er, Em. clear IH Er Em.
    destruct e as [id | id nodes | id members]; cbn [handle].
    + split; [reflexivity |].
      split; (intros [H | (i & ms & Hin & H)]; [now left | right]);
        exists i, ms; split; try assumption.
      * now right.
      * destruct Hin as [Hin | Hin]; [discriminate Hin | assumption].
    + assert (E : (m_relation_ids (handle_way h id nodes),
                   m_member_relation_ids (handle_way h id nodes))
                  = (m_relation_ids h, m_member_relation_ids h)).
      { unfold handle_way.
        rewrite (fold_left_frame (way_node_ref id)
                   (fun g => (m_relation_ids g, m_member_relation_ids g)))
          by (intros; frame_step way_node_ref).
        destruct h as [? ? ? ? ? ? ? ? ? ? ? ? [] ? ?]; reflexivity. }
      injection E as -> ->.
      split; [reflexivity |].
      split; (intros [H | (i & ms & Hin & H)]; [now left | right]);
        exists i, ms; split; try assumption.
      * now right.
      * destruct Hin as [Hin | Hin]; [discriminate Hin | assumption].
    + rewrite handle_relation_on by assumption.
      rewrite relation_loop_relation_ids.
      cbn [m_relation_ids with_relation_ids].
      rewrite <- app_assoc. split; [reflexivity |].
      rewrite relation_loop_member_ids.
      cbn [m_member_relation_ids with_relation_ids with_relation_count].
      split.
      * intros [[H | [Hm ->]] | (i & ms & Hin & H)].
        -- now left.
        -- right. exists id, members. split; [now left | auto].
        -- right. exists i, ms. split; [now right | assumption].
      * intros [H | (i & ms & [Hin | Hin] & Hm & ->)].
        -- left. now left.
        -- injection Hin as <- <-. left. right. auto.
        -- right. exists i, ms. auto.
Qed.

(** X11: with relation checking, after the pass [m_relation_ids] holds the
    ID modulo [2^32] of every relation of the input, in input order and with
    repeats kept, and [m_member_relation_ids] holds exactly the IDs modulo
    [2^32] of the relations that have at least one member of type relation,
    whatever those members refer to. *)
Theorem ledger_after_the_pass
  (show_ids : bool) (input : list entity) (r : Z) :
  let h := apply input (new_handler show_ids true) in
  m_relation_ids h = relation_ids_of input
  /\ (In r (m_member_relation_ids h) <->
      exists id members,
        In (Relation id members) input
        /\ has_relation_member members = true /\ r = id mod 2 ^ 32).
Proof.
  intros h.
  destruct (apply_ledger input r (new_handler show_ids true) eq_refl)
    as [Er Em].
  fold h in Er, Em. split; [exact Er |].
  rewrite Em. cbn. intuition.
Qed.

(** ** The presence sets after the pass *)

(** X12: with relation checking, on a stream of points, then paths, then
    relations, [m_nodes] ends containing exactly the IDs that match, up to
    sign, a streamed point or a point member of some relation, and [m_ways]
    those that match a streamed path or a path member: after the pass a
    missing member cannot be told from a streamed entity. *)
Theorem presence_sets_after_the_pass
  (show_ids : bool) (points : list Z) (ways : list (Z * list Z))
  (relations : list (Z * list RelationMember)) (y : Z) :
  Forall entity_ok (stream points ways relations) ->
  object_id y ->
  let h := apply (stream points ways relations) (new_handler show_ids true) in
  bitsvec.get (m_nodes h) y
  = marked points y || marked (refs_of node (all_members relations)) y
  /\ bitsvec.get (m_ways h) y
     = marked (map fst ways) y
       || marked (refs_of way (all_members relations)) y.
Proof.
  intros Hok Hy h.
  destruct (stream_ok _ _ _ Hok) as (Hp & Hw & Hms).
  set (h0 := new_handler show_ids true).
  set (hp := apply (map Node points) h0).
  set (hw := apply (map (fun w => Way (fst w) (snd w)) ways) hp).
  assert (Eh : h = apply (map (fun r => Relation (fst r) (snd r)) relations)
                     hw).
  { subst h hw hp. unfold stream. now rewrite !apply_app. }
  assert (Hon : m_check_relations hw = true).
  { subst hw hp. now rewrite !apply_check_relations. }
  assert (Hk : forall k, k = node \/ k = way ->
            bitsvec.get (presence k h) y
            = marked (streamed k points ways) y
              || marked (refs_of k (all_members relations)) y).
  { intros k Hk.
    destruct (points_phase k points h0 Hk) as [Ep _].
    destruct (ways_phase k ways hp Hk) as [Ep' _].
    { subst hp. now rewrite apply_check_relations. }
    cbn zeta in *. fold hp in Ep. fold hw in Ep'.
    rewrite Eh, relations_phase_get by assumption.
    assert (E0 : presence k h0 = bitsvec.empty)
      by (destruct Hk as [-> | ->]; reflexivity).
    rewrite Ep', Ep, streamed_split, E0 by assumption.
    rewrite mark_all_get by (assumption || now apply streamed_ok).
    rewrite bitsvec_get_empty, orb_false_r. apply orb_comm. }
  split.
  - exact (Hk node (or_introl eq_refl)).
  - exact (Hk way (or_intror eq_refl)).
Qed.

Lemma presence_sets_after_the_pass_witness :
  let m7 := {| member_type := node; member_ref := -7 |} in
  let h := apply (stream [1] [(10, [1])] [(5, [m7])])
             (new_handler false true) in
  bitsvec.get (m_nodes h) 7 = true /\ bitsvec.get (m_ways h) 7 = false.
Proof.
  intros m7 h.
  destruct (presence_sets_after_the_pass false [1] [(10, [1])] [(5, [m7])] 7)
    as [En Ew].
  - repeat constructor; unfold object_id; cbn; lia.
  - unfold object_id. lia.
  - fold h in En, Ew. rewrite En, Ew. split; reflexivity.
Defined.

(** ** Storage of the presence set *)

Lemma mark_all_capacity_origin ids : forall b,
  Forall object_id ids ->
  bitsvec.capacity (mark_all b ids) = bitsvec.capacity b
  \/ exists m, In m ids
       /\ bitsvec.capacity (mark_all b ids) = Z.abs m + 1024 * 1024.
Proof.
  unfold mark_all.
  induction ids as [| a ids IH]; intros b Hids; cbn [fold_left].
  - now left.
  - inversion Hids as [| ? ? Ha Hids']; subst.
    destruct (IH (bitsvec.set b a) Hids') as [E | (m & Hm & E)].
    + rewrite E, bitsvec_capacity_set by assumption.
      destruct (bitsvec.capacity b <=? Z.abs a); [right | now left].
      exists a. split; [now left | reflexivity].
    + right. exists m. split; [now right | assumption].
Qed.

(** X13: after any non-empty sequence of [set] calls on an empty [bitsvec]
    the size of the vector is [|m| + 1024 * 1024] for one of the marked IDs
    [m]: it exceeds the largest index marked, and by at most
    [1024 * 1024]. *)
Theorem storage_is_within_one_chunk_of_the_largest_index
  (ids : list Z) (top : Z) :
  Forall object_id ids ->
  In top ids ->
  (forall m, In m ids -> Z.abs m <= Z.abs top) ->
  let b := mark_all bitsvec.empty ids in
  (exists m, In m ids /\ bitsvec.capacity b = Z.abs m + 1024 * 1024)
  /\ Z.abs top < bitsvec.capacity b <= Z.abs top + 1024 * 1024.
Proof.
  intros Hids Htop Hmax b. subst b.
  destruct (mark_all_capacity ids bitsvec.empty Hids) as [_ Hfit].
  specialize (Hfit top Htop).
  destruct (mark_all_capacity_origin ids bitsvec.empty Hids)
    as [E | (m & Hm & E)].
  - exfalso. rewrite E in Hfit. cbn in Hfit. lia.
  - split; [eauto |]. rewrite E in *. specialize (Hmax m Hm). lia.
Qed.

Lemma storage_is_within_one_chunk_of_the_largest_index_witness :
  2000000 < bitsvec.capacity (mark_all bitsvec.empty [5; -2000000; 7])
  <= 3048576.
Proof.
  destruct (storage_is_within_one_chunk_of_the_largest_index
              [5; -2000000; 7] (-2000000)) as [_ Hbounds].
  - repeat constructor; unfold object_id; lia.
  - right. left. reflexivity.
  - intros m [<- | [<- | [<- | []]]]; lia.
  - exact Hbounds.
Defined.

(** X14: [set] of an ID that [get] already reports changes nothing that can
    be observed: every [get] answers as before and the size of the vector
    stays the same. *)
Theorem marking_a_present_id_changes_nothing (b : bitsvec.t) (x y : Z) :
  object_id x -> object_id y ->
  bitsvec.get b x = true ->
  bitsvec.get (bitsvec.set b x) y = bitsvec.get b y
  /\ bitsvec.capacity (bitsvec.set b x) = bitsvec.capacity b.
Proof.
  intros Hx Hy Hget. split.
  - rewrite bitsvec_get_set by assumption.
    destruct (Z.eqb_spec (Z.abs y) (Z.abs x)) as [E | _]; [| reflexivity].
    cbn [orb]. rewrite <- Hget. symmetry. now apply bitsvec_get_same_abs.
  - rewrite bitsvec_capacity_set by assumption.
    destruct (Z.leb_spec (bitsvec.capacity b) (Z.abs x)) as [Hle |];
      [| reflexivity].
    rewrite (bitsvec_get_beyond b x Hx Hle) in Hget. discriminate Hget.
Qed.

Lemma marking_a_present_id_changes_nothing_witness :
  let b := bitsvec.set bitsvec.empty 9 in
  bitsvec.get (bitsvec.set b (-9)) 4 = bitsvec.get b 4
  /\ bitsvec.capacity (bitsvec.set b (-9)) = bitsvec.capacity b.
Proof.
  intros b.
  apply (marking_a_present_id_changes_nothing b (-9) 4);
    try (unfold object_id; lia).
  reflexivity.
Defined.
